(** * ClientGrpcProxy: the gRPC client adapter of packages/microservices

    A shallow embedding of [client-grpc.ts].  The adapter turns the call
    styles of a gRPC client (unary, client-streaming, server-streaming,
    bidirectional) into rxjs Observables.  The closures of the source are
    embedded as state transformers over the variables they capture, and every
    action on a collaborator (the call handle, the upstream subscription, the
    observer) is recorded in an effect trace. *)

From stdpp Require Import gmap strings list fin_maps pretty.
From Stdlib Require Import ZArith Lia.

Set Warnings "-register-all".

(** ** JavaScript values *)

Inductive jsval : Type :=
| JUndefined
| JNull
| JBool (b : bool)
| JNum (n : Z)
| JStr (s : string)
| JFun (name : string)
| JObj (props : list (string * jsval)).

(** ToBoolean, as used by [if (x)], [x && y] and [x || y]. *)
Definition truthy (v : jsval) : bool :=
  match v with
  | JUndefined | JNull => false
  | JBool b => b
  | JNum n => negb (n =? 0)%Z
  | JStr s => negb (String.eqb s EmptyString)
  | JFun _ | JObj _ => true
  end.

(** *** Reading a property

    A [JObj] is a plain object: it has the listed properties, and inherits
    those of [Object.prototype].  A [JFun] is a strict-mode function, of which
    the model keeps the name; a function that a prototype provides is the
    [JFun] of its name.  Reading the [name] of a function and the members it
    inherits is described here; its [length], its [prototype] and the
    properties assigned to it are not kept, and read as [undefined].  A
    [JStr] is a string of ASCII characters. *)

(** The own property [k] among [props], when there is one. *)
Fixpoint own (k : string) (props : list (string * jsval)) : option jsval :=
  match props with
  | [] => None
  | (k', v) :: rest => if String.eqb k k' then Some v else own k rest
  end.

Definition method (name : string) : string * jsval := (name, JFun name).

Definition objectPrototype : list (string * jsval) :=
  ("constructor", JFun "Object")
  :: (method <$> ["__defineGetter__"; "__defineSetter__"; "hasOwnProperty";
                  "__lookupGetter__"; "__lookupSetter__"; "isPrototypeOf";
                  "propertyIsEnumerable"; "toString"; "valueOf";
                  "toLocaleString"]).

Definition functionPrototype : list (string * jsval) :=
  ("constructor", JFun "Function")
  :: (method <$> ["apply"; "bind"; "call"; "toString"]).

Definition stringPrototype : list (string * jsval) :=
  ("constructor", JFun "String")
  :: (method <$> ["anchor"; "at"; "big"; "blink"; "bold"; "charAt";
                  "charCodeAt"; "codePointAt"; "concat"; "endsWith";
                  "fontcolor"; "fontsize"; "fixed"; "includes"; "indexOf";
                  "isWellFormed"; "italics"; "lastIndexOf"; "link";
                  "localeCompare"; "match"; "matchAll"; "normalize"; "padEnd";
                  "padStart"; "repeat"; "replace"; "replaceAll"; "search";
                  "slice"; "small"; "split"; "strike"; "sub"; "substr";
                  "substring"; "sup"; "startsWith"; "toString";
                  "toWellFormed"; "trim"; "trimStart"; "trimLeft"; "trimEnd";
                  "trimRight"; "toLocaleLowerCase"; "toLocaleUpperCase";
                  "toLowerCase"; "toUpperCase"; "valueOf"]).

Definition numberPrototype : list (string * jsval) :=
  ("constructor", JFun "Number")
  :: (method <$> ["toExponential"; "toFixed"; "toPrecision"; "toString";
                  "valueOf"; "toLocaleString"]).

Definition booleanPrototype : list (string * jsval) :=
  ("constructor", JFun "Boolean") :: (method <$> ["toString"; "valueOf"]).

(** The characters of a string under their indices. *)
Definition characters (s : string) : list (string * jsval) :=
  imap (fun i c => (pretty i, JStr (String c EmptyString)))
       (String.list_ascii_of_string s).

Definition ownProperties (v : jsval) : list (string * jsval) :=
  match v with
  | JObj props => props
  | JFun name => [("name", JStr name)]
  | JStr s => ("length", JNum (Z.of_nat (String.length s))) :: characters s
  | _ => []
  end.

Definition prototypeChain (v : jsval) : list (list (string * jsval)) :=
  match v with
  | JObj _ => [objectPrototype]
  | JFun _ => [functionPrototype; objectPrototype]
  | JStr _ => [stringPrototype; objectPrototype]
  | JNum _ => [numberPrototype; objectPrototype]
  | JBool _ => [booleanPrototype; objectPrototype]
  | JUndefined | JNull => []
  end.

Fixpoint inherited (k : string) (chain : list (list (string * jsval)))
  : option jsval :=
  match chain with
  | [] => None
  | proto :: rest =>
      match own k proto with
      | Some v => Some v
      | None => inherited k rest
      end
  end.

(** [v.k] and [v[k]] for a value that is neither null nor undefined: the own
    property, else the inherited one, else [undefined].  [__proto__] is the
    accessor of [Object.prototype] and gives the prototype of the value. *)
Definition getProp (v : jsval) (k : string) : jsval :=
  match own k (ownProperties v) with
  | Some x => x
  | None =>
      match inherited k (prototypeChain v) with
      | Some x => x
      | None =>
          if String.eqb k "__proto__"
          then match prototypeChain v with
               | proto :: _ => JObj proto
               | [] => JUndefined
               end
          else JUndefined
      end
  end.

(** How a built-in function prints. *)
Definition nativeFunction (name : string) : string :=
  "function " +:+ name +:+ "() { [native code] }".

(** [String(v)], as [obj[v] = ...] applies it to a key; an object prints
    through [Object.prototype.toString], a function as a built-in does. *)
Definition toPropertyKey (v : jsval) : string :=
  match v with
  | JUndefined => "undefined"
  | JNull => "null"
  | JBool b => if b then "true" else "false"
  | JNum n => pretty n
  | JStr s => s
  | JFun name => nativeFunction name
  | JObj _ => "[object Object]"
  end.

(** Modelled from the spec: [isFunction] of [@nestjs/common/utils/shared.utils]
    is not among the sources; the spec calls the test a structural check for
    a "subscribe" capability, that is, the property holds a function. *)
Definition isFunction (v : jsval) : bool :=
  match v with
  | JFun _ => true
  | _ => false
  end.

(** [v === 'literal'] and [v === n] against a literal. *)
Definition strictEqStr (v : jsval) (s : string) : bool :=
  match v with
  | JStr t => String.eqb t s
  | _ => false
  end.

Definition strictEqNum (v : jsval) (n : Z) : bool :=
  match v with
  | JNum m => (m =? n)%Z
  | _ => false
  end.

Definition GRPC_CANCELLED : string := "Cancelled".

(** The error objects the transport reports.  The adapter reads the two
    properties [details] and [code]; an absent property is [JUndefined]. *)
Record ServiceError := mkServiceError {
  details : jsval;
  code : jsval;
  message : string;
}.

(** ** Effects *)

Inductive ObsEvent :=
| ObsNext (v : jsval)
| ObsError (e : jsval)
| ObsComplete.

Inductive CallArg :=
| ArgValue (v : jsval)
| ArgCallback.

(** One entry per action of the adapter on a collaborator.  [Observer ev d]
    is a call of [observer.next / error / complete]; [d] tells whether the
    subscriber was still open, that is, whether the consumer received [ev].
    [IsClientCanceled b] is the assignment [isClientCanceled = b]: it is
    part of the trace so that the trace orders it against the calls on the
    call handle. *)
Inductive Effect :=
| Open (methodName : string) (args : list CallArg)
| On (event : string)
| Write (v : jsval)
| End
| EmitError (e : ServiceError)
| Destroy
| Cancel
| RemoveAllListeners
| UpstreamSubscribe
| UpstreamUnsubscribe
| Observer (ev : ObsEvent) (delivered : bool)
| IsClientCanceled (value : bool).

(** ** The state of one subscription *)

(** An rxjs [Subscription]: closed by [unsubscribe()] and by the terminal
    event of its source. *)
Record Subscription := mkSubscription { sub_closed : bool }.

(** The variables captured by the closures of one [new Observable(...)]:
    - streaming adapter:  [let isClientCanceled], [let upstreamSubscription]
      (nullable);
    - unary adapter, request stream: [let isClientCanceled],
      [const upstreamSubscription];
    - unary adapter, plain request: none. *)
Inductive Closure :=
| StreamClosure (isClientCanceled : bool)
                (upstreamSubscription : option Subscription)
| UnaryStreamClosure (isClientCanceled : bool)
                     (upstreamSubscription : Subscription)
| UnaryPlainClosure.

Record Inv := mkInv {
  vars : Closure;
  finished : bool;   (* call.finished, maintained by the transport *)
  listening : bool;  (* the listeners of call.on(...) are registered *)
  closed : bool;     (* the subscriber of the response stream is closed *)
}.

Definition set_vars (c : Closure) (st : Inv) : Inv :=
  mkInv c (finished st) (listening st) (closed st).
Definition set_finished (b : bool) (st : Inv) : Inv :=
  mkInv (vars st) b (listening st) (closed st).
Definition set_listening (b : bool) (st : Inv) : Inv :=
  mkInv (vars st) (finished st) b (closed st).
Definition set_closed (b : bool) (st : Inv) : Inv :=
  mkInv (vars st) (finished st) (listening st) b.

(** The Cancellation State of a subscription, where the closure has one. *)
Definition cancellationState (st : Inv) : option bool :=
  match vars st with
  | StreamClosure c _ => Some c
  | UnaryStreamClosure c _ => Some c
  | UnaryPlainClosure => None
  end.

Definition upstreamOf (st : Inv) : option Subscription :=
  match vars st with
  | StreamClosure _ u => u
  | UnaryStreamClosure _ u => Some u
  | UnaryPlainClosure => None
  end.

(** ** Handlers: state transformers with an effect trace *)

Definition Handler := Inv -> Inv * list Effect.

Definition ret : Handler := fun st => (st, []).
Definition emit (e : Effect) : Handler := fun st => (st, [e]).
Definition modify (f : Inv -> Inv) : Handler := fun st => (f st, []).
Definition andThen (f g : Handler) : Handler :=
  fun st =>
    let '(st1, e1) := f st in
    let '(st2, e2) := g st1 in
    (st2, e1 ++ e2).
Definition branch (c : Inv -> bool) (f g : Handler) : Handler :=
  fun st => if c st then f st else g st.

Notation "f >>> g" := (andThen f g) (at level 62, right associativity).

(** Actions on the call handle that do not call back into the adapter. *)
Definition call_write (v : jsval) : Handler := emit (Write v).
Definition call_end : Handler := emit End.
Definition call_destroy : Handler := emit Destroy.
Definition call_cancel : Handler := emit Cancel.
Definition call_removeAllListeners : Handler :=
  emit RemoveAllListeners >>> modify (set_listening false).

(** *** Teardown: the function returned from the subscribe function *)

(** [isClientCanceled = true]. *)
Definition markCanceled (st : Inv) : Inv :=
  match vars st with
  | StreamClosure _ u => set_vars (StreamClosure true u) st
  | UnaryStreamClosure _ u => set_vars (UnaryStreamClosure true u) st
  | UnaryPlainClosure => st
  end.

(** The statement [isClientCanceled = true;] of lines 219 and 271. *)
Definition setClientCanceled : Handler :=
  emit (IsClientCanceled true) >>> modify markCanceled.

(** [if (upstreamSubscription) { upstreamSubscription.unsubscribe();
    upstreamSubscription = null; }] of the streaming adapter. *)
Definition releaseUpstream : Handler :=
  fun st =>
    match vars st with
    | StreamClosure c (Some _) =>
        (set_vars (StreamClosure c None) st, [UpstreamUnsubscribe])
    | _ => (st, [])
    end.

(** [upstreamSubscription.unsubscribe()] of the unary adapter. *)
Definition unsubscribeUpstream : Handler :=
  fun st =>
    match vars st with
    | UnaryStreamClosure c _ =>
        (set_vars (UnaryStreamClosure c (mkSubscription true)) st,
         [UpstreamUnsubscribe])
    | _ => (st, [])
    end.

(** Streaming adapter, lines 210-221. *)
Definition streamTeardown : Handler :=
  releaseUpstream >>>
  branch finished ret (setClientCanceled >>> call_cancel).

(** Unary adapter with a request stream, lines 268-274. *)
Definition unaryStreamTeardown : Handler :=
  unsubscribeUpstream >>>
  branch (fun st => negb (finished st)) (setClientCanceled >>> call_cancel) ret.

(** Unary adapter with a plain request, lines 286-290. *)
Definition unaryPlainTeardown : Handler :=
  branch (fun st => negb (finished st)) call_cancel ret.

Definition teardown : Handler :=
  fun st =>
    match vars st with
    | StreamClosure _ _ => streamTeardown st
    | UnaryStreamClosure _ _ => unaryStreamTeardown st
    | UnaryPlainClosure => unaryPlainTeardown st
    end.

(** *** The rxjs subscriber around the consumer's observer

    [next] is passed on while the subscriber is open.  The first [error] or
    [complete] is passed on, closes the subscriber and runs the teardown;
    later calls are dropped.  [unsubscribe()] closes an open subscriber and
    runs the teardown, and does nothing on a closed one. *)
Definition observer_next (v : jsval) : Handler :=
  fun st => (st, [Observer (ObsNext v) (negb (closed st))]).

Definition observer_terminal (ev : ObsEvent) : Handler :=
  fun st =>
    if closed st then (st, [Observer ev false])
    else (emit (Observer ev true) >>> modify (set_closed true) >>> teardown) st.

Definition observer_error (e : jsval) : Handler := observer_terminal (ObsError e).
Definition observer_complete : Handler := observer_terminal ObsComplete.

Definition unsubscribe : Handler :=
  fun st =>
    if closed st then (st, [])
    else (modify (set_closed true) >>> teardown) st.

(** [observer.next(v)] to a consumer whose [next] handler unsubscribes before
    it returns (as [take(1)] and [firstValueFrom] do): the teardown runs
    inside the call of [observer.next]. *)
Definition observer_next_unsubscribing (v : jsval) : Handler :=
  observer_next v >>> unsubscribe.

Section Adapter.

(** [this.serializeError], inherited from [ClientProxy]. *)
Variable serializeError : ServiceError -> jsval.

(** *** Streaming adapter: the listeners of lines 192-209 *)

Definition streamOnData (data : jsval) : Handler := observer_next data.

Definition streamOnError (error : ServiceError) : Handler :=
  fun st =>
    match vars st with
    | StreamClosure isClientCanceled _ =>
        if strictEqStr (details error) GRPC_CANCELLED then
          (call_destroy >>>
           (if isClientCanceled then ret
            else observer_error (serializeError error))) st
        else observer_error (serializeError error) st
    | _ => (st, [])
    end.

Definition streamOnEnd : Handler :=
  releaseUpstream >>> call_removeAllListeners >>> observer_complete.

(** *** Unary adapter: the completion callbacks *)

(** Request-stream shape, lines 241-253; [next] is what [observer.next]
    does. *)
Definition unaryStreamCallbackOn (next : jsval -> Handler)
    (error : option ServiceError) (data : jsval) : Handler :=
  fun st =>
    match vars st with
    | UnaryStreamClosure isClientCanceled _ =>
        match error with
        | Some error =>
            if strictEqStr (details error) GRPC_CANCELLED
               || strictEqNum (code error) 1 then
              (call_destroy >>>
               (if isClientCanceled then ret
                else observer_error (serializeError error))) st
            else observer_error (serializeError error) st
        | None => (next data >>> observer_complete) st
        end
    | _ => (st, [])
    end.

Definition unaryStreamCallback : option ServiceError -> jsval -> Handler :=
  unaryStreamCallbackOn observer_next.

(** Plain shape, lines 278-284. *)
Definition unaryPlainCallbackOn (next : jsval -> Handler)
    (error : option ServiceError) (data : jsval) : Handler :=
  match error with
  | Some error => observer_error (serializeError error)
  | None => next data >>> observer_complete
  end.

Definition unaryPlainCallback : option ServiceError -> jsval -> Handler :=
  unaryPlainCallbackOn observer_next.

(** *** The upstream subscription

    [call.emit('error', err)] runs the listeners registered on the call
    synchronously: in the streaming adapter that is [streamOnError]; the unary
    adapter registers none. *)
Definition call_emit_error (err : ServiceError) : Handler :=
  emit (EmitError err) >>>
  branch listening (streamOnError err) ret.

Definition upstreamLive (st : Inv) : bool :=
  match upstreamOf st with
  | Some u => negb (sub_closed u)
  | None => false
  end.

(** The terminal event of the request stream closes its subscription. *)
Definition closeUpstream (st : Inv) : Inv :=
  match vars st with
  | StreamClosure c (Some _) => set_vars (StreamClosure c (Some (mkSubscription true))) st
  | UnaryStreamClosure c _ => set_vars (UnaryStreamClosure c (mkSubscription true)) st
  | _ => st
  end.

Definition upstreamNext (val : jsval) : Handler := call_write val.
Definition upstreamError (err : ServiceError) : Handler :=
  call_emit_error err >>> modify closeUpstream.
Definition upstreamComplete : Handler :=
  call_end >>> modify closeUpstream.

(** *** The subscribe functions passed to [new Observable] *)

Definition isUpstreamSubject (upstreamSubjectOrData : jsval) : bool :=
  truthy upstreamSubjectOrData
  && isFunction (getProp upstreamSubjectOrData "subscribe").

Definition arg (i : nat) (args : list jsval) : jsval :=
  default JUndefined (args !! i).

(** Streaming adapter, lines 170-221. *)
Definition streamSubscribe (methodName : string) (isRequestStream : bool)
    (args : list jsval) : Inv * list Effect :=
  let upstreamSubjectOrData := arg 0 args in
  let maybeMetadata := arg 1 args in
  if isRequestStream && isUpstreamSubject upstreamSubjectOrData then
    (mkInv (StreamClosure false (Some (mkSubscription false))) false true false,
     [Open methodName [ArgValue maybeMetadata]; UpstreamSubscribe;
      On "data"; On "error"; On "end"])
  else
    (mkInv (StreamClosure false None) false true false,
     [Open methodName (ArgValue <$> args); On "data"; On "error"; On "end"]).

(** Unary adapter, request-stream shape, lines 238-275. *)
Definition unaryStreamSubscribe (methodName : string) (args : list jsval)
  : Inv * list Effect :=
  let maybeMetadata := arg 1 args in
  let callArgs :=
    if truthy maybeMetadata then [ArgValue maybeMetadata; ArgCallback]
    else [ArgCallback] in
  (mkInv (UnaryStreamClosure false (mkSubscription false)) false false false,
   [Open methodName callArgs; UpstreamSubscribe]).

(** Unary adapter, plain shape, lines 277-291. *)
Definition unaryPlainSubscribe (methodName : string) (args : list jsval)
  : Inv * list Effect :=
  (mkInv UnaryPlainClosure false false false,
   [Open methodName ((ArgValue <$> args) ++ [ArgCallback])]).

(** *** What can happen to a subscription *)

Inductive Event :=
| CallData (data : jsval)          (* the call emits 'data' *)
| CallError (error : ServiceError) (* the call emits 'error' *)
| CallEnd                          (* the call emits 'end' *)
| Callback (error : option ServiceError) (data : jsval)
                                   (* the completion callback of a unary call *)
| CallFinished                     (* the transport sets call.finished *)
| UpstreamNext (val : jsval)       (* the request stream emits a value *)
| UpstreamError (err : ServiceError)
| UpstreamComplete
| Unsubscribe                      (* the consumer unsubscribes *)
| CallbackUnsubscribing (data : jsval).
       (* the completion callback, without an error, of a unary call whose
          consumer unsubscribes inside its next handler *)

Definition step (ev : Event) : Handler :=
  fun st =>
    match ev with
    | CallData data => if listening st then streamOnData data st else (st, [])
    | CallError error => if listening st then streamOnError error st else (st, [])
    | CallEnd => if listening st then streamOnEnd st else (st, [])
    | Callback error data =>
        match vars st with
        | StreamClosure _ _ => (st, [])
        | UnaryStreamClosure _ _ => unaryStreamCallback error data st
        | UnaryPlainClosure => unaryPlainCallback error data st
        end
    | CallFinished => (set_finished true st, [])
    | UpstreamNext val => if upstreamLive st then upstreamNext val st else (st, [])
    | UpstreamError err => if upstreamLive st then upstreamError err st else (st, [])
    | UpstreamComplete => if upstreamLive st then upstreamComplete st else (st, [])
    | Unsubscribe => unsubscribe st
    | CallbackUnsubscribing data =>
        match vars st with
        | StreamClosure _ _ => (st, [])
        | UnaryStreamClosure _ _ =>
            unaryStreamCallbackOn observer_next_unsubscribing None data st
        | UnaryPlainClosure =>
            unaryPlainCallbackOn observer_next_unsubscribing None data st
        end
    end.

Fixpoint run (evs : list Event) : Handler :=
  match evs with
  | [] => ret
  | ev :: rest => step ev >>> run rest
  end.

End Adapter.

(** ** Reading a trace *)

Definition emitted (t : list Effect) : list ObsEvent :=
  omap (fun e => match e with Observer ev true => Some ev | _ => None end) t.

Definition observerCalls (t : list Effect) : list ObsEvent :=
  omap (fun e => match e with Observer ev _ => Some ev | _ => None end) t.

Definition isTerminal (ev : ObsEvent) : bool :=
  match ev with
  | ObsNext _ => false
  | _ => true
  end.

Definition count (p : Effect -> bool) (t : list Effect) : nat :=
  length (List.filter p t).

Definition isCancel (e : Effect) : bool :=
  match e with Cancel => true | _ => false end.
Definition isDestroy (e : Effect) : bool :=
  match e with Destroy => true | _ => false end.
Definition isEnd (e : Effect) : bool :=
  match e with End => true | _ => false end.
Definition isOpen (e : Effect) : bool :=
  match e with Open _ _ => true | _ => false end.
Definition isRemoveAllListeners (e : Effect) : bool :=
  match e with RemoveAllListeners => true | _ => false end.

Definition writes (t : list Effect) : list jsval :=
  omap (fun e => match e with Write v => Some v | _ => None end) t.

(** ** The client object and the dispatcher *)

Record MethodDescriptor := mkMethod {
  requestStream : bool;
  responseStream : bool;
}.

Inductive Credentials :=
| Insecure                     (* grpcPackage.credentials.createInsecure() *)
| ChannelCredentials (id : nat).

(** An instance of a generated service client: [client[methodName]] is a
    function carrying the two flags of its method. *)
Record GrpcClient := mkClient {
  client_id : nat;
  client_service : string;
  client_url : string;
  client_credentials : Credentials;
  client_options : gmap string jsval;
  client_methods : gmap string MethodDescriptor;
}.

Inductive Exception :=
| Error (msg : string)
| TypeError (msg : string)
| InvalidGrpcServiceException (name : string).

Inductive Result (A : Type) :=
| Ok (a : A)
| Throw (e : Exception).
Arguments Ok {A} a.
Arguments Throw {A} e.

(** The transport seen from all subscriptions: one [Inv] per call handle,
    the handle being its index, and one trace. *)
Inductive WEffect :=
| DescriptorRead (methodName flag : string)
| CallEffect (handle : nat) (e : Effect).

Record World := mkWorld {
  invocations : list Inv;
  wtrace : list WEffect;
}.

Definition logW (e : WEffect) (w : World) : World :=
  mkWorld (invocations w) (wtrace w ++ [e]).

(** Running a subscribe function: the call handle it opens is new. *)
Definition openCall (p : Inv * list Effect) (w : World) : nat * World :=
  let handle := length (invocations w) in
  (handle,
   mkWorld (invocations w ++ [p.1]) (wtrace w ++ (CallEffect handle <$> p.2))).

(** [observable.subscribe(...)] returns the handle of the call it opened. *)
Definition Observable := World -> nat * World.
Definition ServiceMethod := list jsval -> World -> Result Observable * World.

Definition undefinedProperty (prop : string) : Exception :=
  TypeError ("Cannot read properties of undefined (reading '" +:+ prop +:+ "')").

(** Lines 164-225. *)
Definition createStreamServiceMethod (client : GrpcClient) (methodName : string)
  : ServiceMethod :=
  fun args w =>
    match client_methods client !! methodName with
    | None => (Throw (undefinedProperty "requestStream"), w)
    | Some method =>
        let isRequestStream := requestStream method in
        let stream : Observable :=
          openCall (streamSubscribe methodName isRequestStream args) in
        (Ok stream, logW (DescriptorRead methodName "requestStream") w)
    end.

(** Lines 227-293. *)
Definition createUnaryServiceMethod (client : GrpcClient) (methodName : string)
  : ServiceMethod :=
  fun args w =>
    match client_methods client !! methodName with
    | None => (Throw (undefinedProperty "requestStream"), w)
    | Some method =>
        let isRequestStream := requestStream method in
        let upstreamSubjectOrData := arg 0 args in
        (Ok (if isRequestStream && isUpstreamSubject upstreamSubjectOrData
             then openCall (unaryStreamSubscribe methodName args)
             else openCall (unaryPlainSubscribe methodName args)),
         logW (DescriptorRead methodName "requestStream") w)
    end.

(** Lines 155-162. *)
Definition createServiceMethod (client : GrpcClient) (methodName : string)
    (w : World) : Result ServiceMethod * World :=
  match client_methods client !! methodName with
  | None => (Throw (undefinedProperty "responseStream"), w)
  | Some method =>
      (Ok (if responseStream method
           then createStreamServiceMethod client methodName
           else createUnaryServiceMethod client methodName),
       logW (DescriptorRead methodName "responseStream") w)
  end.

Section Delivery.

Variable serializeError : ServiceError -> jsval.

(** An event reaches the subscription that owns the call handle. *)
Definition deliver (handle : nat) (ev : Event) (w : World) : World :=
  match invocations w !! handle with
  | None => w
  | Some st =>
      let '(st', t) := step serializeError ev st in
      mkWorld (<[handle := st']> (invocations w))
              (wtrace w ++ (CallEffect handle <$> t))
  end.

End Delivery.

Definition transportActions (t : list WEffect) : list (nat * Effect) :=
  omap (fun e => match e with CallEffect h x => Some (h, x) | _ => None end) t.

(** ** The proxy object: client registry and unsupported operations *)

Record GrpcOptions := mkOptions {
  channelOptions : option (gmap string jsval);
  maxSendMessageLength : jsval;
  maxReceiveMessageLength : jsval;
  maxMetadataSize : jsval;
  keepalive : jsval;
  credentials : option Credentials;
}.

(** [clients] is the [Map] of line 36; [grpcClients] holds the loaded
    packages, each mapping a service name to the methods of its client
    constructor.  [constructed] and [closedClients] are history: every client
    built by [new], oldest first, and the ids on which [close()] was called. *)
Record Proxy := mkProxy {
  options : GrpcOptions;
  url : string;
  grpcClients : list (gmap string (gmap string MethodDescriptor));
  clients : gmap string GrpcClient;
  constructed : list GrpcClient;
  closedClients : gset nat;
}.

(** The object literal of lines 128-140. *)
Definition keepaliveKeys : jsval :=
  JObj
    [("keepaliveTimeMs", JStr "grpc.keepalive_time_ms");
     ("keepaliveTimeoutMs", JStr "grpc.keepalive_timeout_ms");
     ("keepalivePermitWithoutCalls", JStr "grpc.keepalive_permit_without_calls");
     ("http2MaxPingsWithoutData", JStr "grpc.http2.max_pings_without_data");
     ("http2MinTimeBetweenPingsMs",
      JStr "grpc.http2.min_time_between_pings_ms");
     ("http2MinPingIntervalWithoutDataMs",
      JStr "grpc.http2.min_ping_interval_without_data_ms");
     ("http2MaxPingStrikes", JStr "grpc.http2.max_ping_strikes")].

(** [Object.entries]. *)
Definition entries (v : jsval) : list (string * jsval) :=
  match v with
  | JObj props => props
  | _ => []
  end.

Definition setIfTruthy (key : string) (v : jsval) (m : gmap string jsval)
  : gmap string jsval :=
  if truthy v then <[key := v]> m else m.

Section Registry.

(** [isObject] of [shared.utils], which is not among the sources. *)
Variable isObject : jsval -> bool.

(** Lines 124-153. *)
Definition getKeepaliveOptions (p : Proxy) : gmap string jsval :=
  if negb (isObject (keepalive (options p))) then ∅
  else
    foldl (fun keepaliveOptions '(optionKey, optionValue) =>
             let key := getProp keepaliveKeys optionKey in
             match key with
             | JUndefined => keepaliveOptions
             | _ => <[toPropertyKey key := optionValue]> keepaliveOptions
             end)
          ∅ (entries (keepalive (options p))).

(** Lines 374-378. *)
Definition getClient (name : string) (p : Proxy)
  : option (gmap string (gmap string MethodDescriptor)) :=
  head (filter (fun client => is_Some (client !! name)) (grpcClients p)).

(** Lines 88-122.  The assignments to [channelOptions] write through to
    [this.options.channelOptions] when that object exists. *)
Definition createClientByServiceName (name : string) (p : Proxy)
  : Result GrpcClient * Proxy :=
  match getClient name p with
  | None => (Throw (InvalidGrpcServiceException name), p)
  | Some clientRef =>
      let o := options p in
      let channelOptions' :=
        setIfTruthy "grpc.max_metadata_size" (maxMetadataSize o)
          (setIfTruthy "grpc.max_receive_message_length"
             (maxReceiveMessageLength o)
             (setIfTruthy "grpc.max_send_message_length"
                (maxSendMessageLength o)
                (default ∅ (channelOptions o)))) in
      let keepaliveOptions := getKeepaliveOptions p in
      let options' := keepaliveOptions ∪ channelOptions' in
      let credentials' := default Insecure (credentials o) in
      let grpcClient :=
        mkClient (length (constructed p)) name (url p) credentials' options'
                 (default ∅ (clientRef !! name)) in
      (Ok grpcClient,
       mkProxy
         (mkOptions (match channelOptions o with
                     | Some _ => Some channelOptions'
                     | None => None
                     end)
                    (maxSendMessageLength o) (maxReceiveMessageLength o)
                    (maxMetadataSize o) (keepalive o) (credentials o))
         (url p) (grpcClients p)
         (<[name := grpcClient]> (clients p))
         (constructed p ++ [grpcClient])
         (closedClients p))
  end.

(** Lines 84-86. *)
Definition getClientByServiceName (name : string) (p : Proxy)
  : Result GrpcClient * Proxy :=
  match clients p !! name with
  | Some client => (Ok client, p)
  | None => createClientByServiceName name p
  end.

Fixpoint getClientsByServiceNames (names : list string) (p : Proxy) : Proxy :=
  match names with
  | [] => p
  | name :: rest =>
      getClientsByServiceNames rest (getClientByServiceName name p).2
  end.

End Registry.

(** Lines 351-359; every generated client has a [close] function. *)
Definition close (p : Proxy) : Proxy :=
  mkProxy (options p) (url p) [] ∅ (constructed p)
          (closedClients p ∪
           list_to_set (client_id <$> (map_to_list (clients p)).*2)).

Definition clientsOf (name : string) (l : list GrpcClient) : list GrpcClient :=
  filter (fun c => client_service c = name) l.

(** *** Operations the gRPC transport does not support *)

(** How a call that never returns a value ends: a [throw] at the call site,
    or, for an [async] method, a promise that is rejected. *)
Inductive Outcome :=
| Thrown (e : Exception)
| Rejected (e : Exception).

Definition dquote : string :=
  String (Ascii.Ascii false true false false false true false false) EmptyString.

Definition NOT_SUPPORTED : string :=
  "Method is not supported in gRPC mode.".
Definition NOT_SUPPORTED_USE_CLIENT_GRPC : string :=
  "Method is not supported in gRPC mode. Use ClientGrpc instead (learn more in the documentation).".

(** Lines 40-44. *)
Definition status (p : Proxy) (w : World) : Outcome * Proxy * World :=
  (Thrown (Error ("The " +:+ dquote +:+ "status" +:+ dquote +:+
                  " attribute is not supported by the gRPC transport")), p, w).

(** Lines 361-363. *)
Definition connect (p : Proxy) (w : World) : Outcome * Proxy * World :=
  (Rejected (Error ("The " +:+ dquote +:+ "connect()" +:+ dquote +:+
                    " method is not supported in gRPC mode.")), p, w).

(** Lines 365-372. *)
Definition send (pattern data : jsval) (p : Proxy) (w : World)
  : Outcome * Proxy * World :=
  (Thrown (Error NOT_SUPPORTED_USE_CLIENT_GRPC), p, w).

(** Lines 380-384. *)
Definition publish (packet callback : jsval) (p : Proxy) (w : World)
  : Outcome * Proxy * World :=
  (Thrown (Error NOT_SUPPORTED_USE_CLIENT_GRPC), p, w).

(** Lines 386-390. *)
Definition dispatchEvent (packet : jsval) (p : Proxy) (w : World)
  : Outcome * Proxy * World :=
  (Rejected (Error NOT_SUPPORTED_USE_CLIENT_GRPC), p, w).

(** Lines 392-397. *)
Definition on (event callback : jsval) (p : Proxy) (w : World)
  : Outcome * Proxy * World :=
  (Thrown (Error NOT_SUPPORTED), p, w).

(** Lines 399-401. *)
Definition unwrap (p : Proxy) (w : World) : Outcome * Proxy * World :=
  (Thrown (Error NOT_SUPPORTED), p, w).

Inductive Operation :=
| OpStatus
| OpConnect
| OpSend (pattern data : jsval)
| OpPublish (packet callback : jsval)
| OpDispatchEvent (packet : jsval)
| OpOn (event callback : jsval)
| OpUnwrap.

Definition perform (op : Operation) : Proxy -> World -> Outcome * Proxy * World :=
  match op with
  | OpStatus => status
  | OpConnect => connect
  | OpSend pattern data => send pattern data
  | OpPublish packet callback => publish packet callback
  | OpDispatchEvent packet => dispatchEvent packet
  | OpOn event callback => on event callback
  | OpUnwrap => unwrap
  end.

(** [String.prototype.includes]. *)
Fixpoint includes (needle hay : string) : bool :=
  String.prefix needle hay
  || match hay with
     | EmptyString => false
     | String _ rest => includes needle rest
     end.

Definition saysNotSupported (e : Exception) : bool :=
  match e with
  | Error msg => includes "not supported" msg
  | _ => false
  end.

Definition errorOf (o : Outcome) : Exception :=
  match o with
  | Thrown e => e
  | Rejected e => e
  end.

Definition raisedAtCallSite (o : Outcome) : bool :=
  match o with
  | Thrown _ => true
  | Rejected _ => false
  end.

(** ** Vocabulary of the statements *)

(** The response stream of any call: values, then at most one terminal event,
    which is the last event. *)
Fixpoint singleTerminal (l : list ObsEvent) : bool :=
  match l with
  | [] => true
  | ObsNext _ :: rest => singleTerminal rest
  | _ :: rest => match rest with [] => true | _ => false end
  end.

Definition valuesOnly (l : list ObsEvent) : bool :=
  forallb (fun ev => negb (isTerminal ev)) l.

(** The response stream of a unary call: nothing, one value and the
    completion, or one error. *)
Definition unaryOutcome (l : list ObsEvent) : bool :=
  match l with
  | [] => true
  | [ObsNext _; ObsComplete] => true
  | [ObsError _] => true
  | _ => false
  end.

(** The test of line 243 and the test of line 194. *)
Definition denotesCancelled (error : ServiceError) : bool :=
  strictEqStr (details error) GRPC_CANCELLED || strictEqNum (code error) 1.
Definition detailsCancelled (error : ServiceError) : bool :=
  strictEqStr (details error) GRPC_CANCELLED.

(** The completion callback of the unary adapter returns without a call on
    the observer: request-stream shape, cancelled by the consumer, error
    denoting cancellation. *)
Definition swallows (st : Inv) (error : ServiceError) : bool :=
  match vars st with
  | UnaryStreamClosure true _ => denotesCancelled error
  | _ => false
  end.

Definition isStream (st : Inv) : bool :=
  match vars st with
  | StreamClosure _ _ => true
  | _ => false
  end.

Definition hasUpstream (st : Inv) : bool :=
  match upstreamOf st with
  | Some _ => true
  | None => false
  end.

(** A subscription of the unary adapter: no listener is registered on its
    call handle. *)
Definition unaryState (st : Inv) : bool :=
  negb (isStream st) && negb (listening st).

Definition isRequestStreamShape (st : Inv) : bool :=
  match vars st with
  | UnaryStreamClosure _ _ => true
  | _ => false
  end.

Definition isPlainShape (st : Inv) : bool :=
  match vars st with
  | UnaryPlainClosure => true
  | _ => false
  end.

Definition consumerCancelled (st : Inv) : bool :=
  match cancellationState st with
  | Some true => true
  | _ => false
  end.

(** The subscribe function of the Observable that the unary adapter returns:
    the test of line 237. *)
Definition unarySubscribe (methodName : string) (isRequestStream : bool)
    (args : list jsval) : Inv * list Effect :=
  if isRequestStream && isUpstreamSubject (arg 0 args)
  then unaryStreamSubscribe methodName args
  else unaryPlainSubscribe methodName args.

(** The subscribe function behind the service method that
    [createServiceMethod] selects. *)
Definition subscribeFor (responseStream : bool) (methodName : string)
    (isRequestStream : bool) (args : list jsval) : Inv * list Effect :=
  if responseStream then streamSubscribe methodName isRequestStream args
  else unarySubscribe methodName isRequestStream args.


Definition isUpstreamComplete (ev : Event) : bool :=
  match ev with
  | UpstreamComplete => true
  | _ => false
  end.

(** The service method that [createServiceMethod] returns for a method. *)
Definition serviceMethodFor (client : GrpcClient) (methodName : string)
    (method : MethodDescriptor) : ServiceMethod :=
  if responseStream method
  then createStreamServiceMethod client methodName
  else createUnaryServiceMethod client methodName.

(** The operations declared [async]: their [throw] rejects the promise they
    return. *)
Definition isAsync (op : Operation) : bool :=
  match op with
  | OpConnect | OpDispatchEvent _ => true
  | _ => false
  end.

(** ** The rest of the proxy: service objects and package lookup *)

Section Services.

Variable isObject : jsval -> bool.

(** The [forEach] of lines 78-80 over [protoMethods]. *)
Fixpoint createServiceMethods (grpcClient : GrpcClient)
    (protoMethods : list string) (grpcService : gmap string ServiceMethod)
    (w : World) : Result (gmap string ServiceMethod) * World :=
  match protoMethods with
  | [] => (Ok grpcService, w)
  | m :: rest =>
      match createServiceMethod grpcClient m w with
      | (Ok method, w') =>
          createServiceMethods grpcClient rest (<[m := method]> grpcService) w'
      | (Throw e, w') => (Throw e, w')
      end
  end.

(** Lines 68-82.  [Object.keys(clientRef[name].prototype)] are the method
    names of the service, enumerated in the order of the map. *)
Definition getService (name : string) (p : Proxy) (w : World)
  : Result (gmap string ServiceMethod) * Proxy * World :=
  match getClientByServiceName isObject name p with
  | (Throw e, p') => (Throw e, p', w)
  | (Ok grpcClient, p') =>
      match getClient name p' with
      | None => (Throw (InvalidGrpcServiceException name), p', w)
      | Some clientRef =>
          let protoMethods :=
            (map_to_list (default ∅ (clientRef !! name))).*1 in
          let '(grpcService, w') :=
            createServiceMethods grpcClient protoMethods ∅ w in
          (grpcService, p', w')
      end
  end.

End Services.

(** [String.prototype.split] with a one-character separator. *)
Fixpoint split (sep : Ascii.ascii) (s : string) : list string :=
  match s with
  | EmptyString => [EmptyString]
  | String c rest =>
      if Ascii.eqb c sep then EmptyString :: split sep rest
      else match split sep rest with
           | [] => [String c EmptyString]
           | segment :: segments => String c segment :: segments
           end
  end.

Definition nullProperty (prop : string) : Exception :=
  TypeError ("Cannot read properties of null (reading '" +:+ prop +:+ "')").

Definition RESTRICTED_PROPERTY : string :=
  "'caller', 'callee', and 'arguments' properties may not be accessed on strict mode functions or the arguments objects for calls to them".

(** [pkg[name]]: reading a property of [undefined] or of [null] throws, and
    so do the accessors [caller] and [arguments] of a function. *)
Definition getMember (pkg : jsval) (name : string) : Result jsval :=
  match pkg with
  | JUndefined => Throw (undefinedProperty name)
  | JNull => Throw (nullProperty name)
  | JFun _ =>
      if String.eqb name "caller" || String.eqb name "arguments"
      then Throw (TypeError RESTRICTED_PROPERTY)
      else Ok (getProp pkg name)
  | _ => Ok (getProp pkg name)
  end.

(** The loop of lines 343-345. *)
Fixpoint walk (names : list string) (pkg : jsval) : Result jsval :=
  match names with
  | [] => Ok pkg
  | name :: rest =>
      match getMember pkg name with
      | Ok pkg' => walk rest pkg'
      | Throw e => Throw e
      end
  end.

(** The character '.'. *)
Definition dot : Ascii.ascii :=
  Ascii.Ascii false true true true false true false false.

(** Lines 338-349. *)
Definition lookupPackage (root : jsval) (packageName : string) : Result jsval :=
  if negb (String.eqb packageName EmptyString)
  then walk (split dot packageName) root
  else Ok root.

(** The [package] option: one name or an array of names. *)
Inductive PackageOption :=
| OnePackage (packageName : string)
| ManyPackages (packageNames : list string).

(** How [createClients] ends: with the packages, with the
    [InvalidGrpcPackageException] of a name that resolves to nothing, or with
    the error thrown by the lookup. *)
Inductive ClientsOutcome :=
| Packages (grpcPackages : list jsval)
| InvalidGrpcPackageException (packageName : string)
| LookupThrew (e : Exception).

(** The loop of lines 303-317; the second component counts the calls of
    [this.logger.error]. *)
Fixpoint collectPackages (grpcContext : jsval) (packageNames : list string)
    (grpcPackages : list jsval) : ClientsOutcome * list string :=
  match packageNames with
  | [] => (Packages grpcPackages, [])
  | packageName :: rest =>
      match lookupPackage grpcContext packageName with
      | Throw e => (LookupThrew e, [])
      | Ok grpcPkg =>
          if negb (truthy grpcPkg)
          then (InvalidGrpcPackageException packageName, [packageName])
          else collectPackages grpcContext rest (grpcPackages ++ [grpcPkg])
      end
  end.

(** Lines 295-319, given the context that [loadProto] returns. *)
Definition createClients (grpcContext : jsval) (packageOption : PackageOption)
  : ClientsOutcome * list string :=
  let packageNames :=
    match packageOption with
    | ManyPackages packageNames => packageNames
    | OnePackage packageName => [packageName]
    end in
  collectPackages grpcContext packageNames [].

(** ** More vocabulary *)



(** An event that carries an error denoting cancellation. *)
Definition cancellationEvent (ev : Event) : bool :=
  match ev with
  | CallError error => denotesCancelled error
  | Callback (Some error) _ => denotesCancelled error
  | UpstreamError err => denotesCancelled err
  | _ => false
  end.

Definition isUpstreamUnsubscribe (e : Effect) : bool :=
  match e with UpstreamUnsubscribe => true | _ => false end.
Definition isEmitError (e : Effect) : bool :=
  match e with EmitError _ => true | _ => false end.
Definition isUpstreamSubscribe (e : Effect) : bool :=
  match e with UpstreamSubscribe => true | _ => false end.

(** The adapter may still call [unsubscribe()] on the request stream. *)
Definition canRelease (st : Inv) : bool :=
  match vars st with
  | StreamClosure _ (Some _) => true
  | UnaryStreamClosure _ _ => negb (closed st)
  | _ => false
  end.

(** The ids of the clients in the registry. *)
Definition cachedIds (p : Proxy) : gset nat :=
  list_to_set (client_id <$> (map_to_list (clients p)).*2).

(** The keys that [createClientByServiceName] writes itself. *)
Definition sizeKeys : list string :=
  ["grpc.max_send_message_length"; "grpc.max_receive_message_length";
   "grpc.max_metadata_size"].

(** While the subscriber is open the consumer has not cancelled, and the
    listeners of a streaming call are registered. *)
Definition subscribed (st : Inv) : bool :=
  closed st
  || (negb (consumerCancelled st) && (negb (isStream st) || listening st)).

(** Once the subscriber is closed the request stream is no longer
    forwarded. *)
Definition released (st : Inv) : bool :=
  negb (closed st) || negb (upstreamLive st).

(** The event by which the transport reports an error to a subscription. *)
Definition errorEvent (responseStream : bool) (error : ServiceError) : Event :=
  if responseStream then CallError error else Callback (Some error) JUndefined.

(** What a unary response stream delivers when the consumer may unsubscribe
    inside its [next] handler: as [unaryOutcome], or the value alone. *)
Definition unaryDelivery (l : list ObsEvent) : bool :=
  match l with
  | [ObsNext _] => true
  | _ => unaryOutcome l
  end.

Definition isCallbackUnsubscribing (ev : Event) : bool :=
  match ev with
  | CallbackUnsubscribing _ => true
  | _ => false
  end.

(** ** A request stream that emits while it is being subscribed to

    [upstreamSubjectOrData.subscribe(...)] (lines 186 and 262) may call its
    three callbacks before it returns, as the streams of [of], [from] and
    [throwError] do.  In the streaming adapter that is before the listeners of
    lines 192-209 are registered, so that an error emitted on the call then
    reaches no listener of the adapter. *)

Inductive Emission :=
| Emits (val : jsval)
| Fails (err : ServiceError)
| Completes.

Definition asEvent (e : Emission) : Event :=
  match e with
  | Emits val => UpstreamNext val
  | Fails err => UpstreamError err
  | Completes => UpstreamComplete
  end.

Section Emitting.

Variable serializeError : ServiceError -> jsval.

(** Streaming adapter, lines 170-221, for a request stream that emits
    [during] its subscription. *)
Definition streamSubscribeEmitting (methodName : string)
    (isRequestStream : bool) (args : list jsval) (during : list Emission)
  : Inv * list Effect :=
  let upstreamSubjectOrData := arg 0 args in
  let maybeMetadata := arg 1 args in
  if isRequestStream && isUpstreamSubject upstreamSubjectOrData then
    let '(st, forwarded) :=
      run serializeError (asEvent <$> during)
          (mkInv (StreamClosure false (Some (mkSubscription false)))
                 false false false) in
    (set_listening true st,
     [Open methodName [ArgValue maybeMetadata]; UpstreamSubscribe]
     ++ forwarded ++ [On "data"; On "error"; On "end"])
  else streamSubscribe methodName isRequestStream args.



(** The events that reach a subscription while its subscriber is open, the
    one that closes it included. *)
Fixpoint whileOpen (evs : list Event) (st : Inv) : list Event :=
  match evs with
  | [] => []
  | ev :: rest =>
      if closed st then []
      else ev :: whileOpen rest (step serializeError ev st).1
  end.

End Emitting.

(** What a request stream asks of the call: a write for each value, in
    order, up to its completion, which ends the call, or its error, which is
    emitted on the call; a terminated stream asks nothing more. *)
Fixpoint requestActions (evs : list Event) : list Effect :=
  match evs with
  | [] => []
  | UpstreamNext val :: rest => Write val :: requestActions rest
  | UpstreamComplete :: _ => [End]
  | UpstreamError err :: _ => [EmitError err]
  | _ :: rest => requestActions rest
  end.



Definition isUpstreamTerminal (ev : Event) : bool :=
  match ev with
  | UpstreamComplete | UpstreamError _ => true
  | _ => false
  end.

(** The key under which [getKeepaliveOptions] stores the value of an option
    key, when it stores it: lines 146-150. *)
Definition keepaliveTarget (optionKey : string) : option string :=
  match getProp keepaliveKeys optionKey with
  | JUndefined => None
  | key => Some (toPropertyKey key)
  end.

(** The option keys that [getKeepaliveOptions] keeps, each with the key it
    stores the value under: the seven names of the object literal, and the
    names that the literal inherits from [Object.prototype]. *)
Definition keepaliveTranslation : list (string * string) :=
  [("keepaliveTimeMs", "grpc.keepalive_time_ms");
   ("keepaliveTimeoutMs", "grpc.keepalive_timeout_ms");
   ("keepalivePermitWithoutCalls", "grpc.keepalive_permit_without_calls");
   ("http2MaxPingsWithoutData", "grpc.http2.max_pings_without_data");
   ("http2MinTimeBetweenPingsMs", "grpc.http2.min_time_between_pings_ms");
   ("http2MinPingIntervalWithoutDataMs",
    "grpc.http2.min_ping_interval_without_data_ms");
   ("http2MaxPingStrikes", "grpc.http2.max_ping_strikes");
   ("constructor", "function Object() { [native code] }");
   ("__defineGetter__", "function __defineGetter__() { [native code] }");
   ("__defineSetter__", "function __defineSetter__() { [native code] }");
   ("hasOwnProperty", "function hasOwnProperty() { [native code] }");
   ("__lookupGetter__", "function __lookupGetter__() { [native code] }");
   ("__lookupSetter__", "function __lookupSetter__() { [native code] }");
   ("isPrototypeOf", "function isPrototypeOf() { [native code] }");
   ("propertyIsEnumerable",
    "function propertyIsEnumerable() { [native code] }");
   ("toString", "function toString() { [native code] }");
   ("valueOf", "function valueOf() { [native code] }");
   ("toLocaleString", "function toLocaleString() { [native code] }");
   ("__proto__", "[object Object]")].

(** ** Sample values *)

Definition messageOnly (e : ServiceError) : jsval := JStr (message e).

Definition requestSubject : jsval := JObj [("subscribe", JFun "subscribe")].

Definition errCancelled : ServiceError :=
  mkServiceError (JStr "Cancelled") (JNum 1) "1 CANCELLED: Cancelled".
Definition errCancelledOnClient : ServiceError :=
  mkServiceError (JStr "Cancelled on client") (JNum 1)
                 "1 CANCELLED: Cancelled on client".
Definition errInternal : ServiceError :=
  mkServiceError (JStr "boom") (JNum 13) "13 INTERNAL: boom".

Definition emptyWorld : World := mkWorld [] [].

Definition orderMethods : gmap string MethodDescriptor :=
  {[ "GetOrder" := mkMethod false false;
     "WatchOrders" := mkMethod false true;
     "Upload" := mkMethod true false;
     "Chat" := mkMethod true true ]}.

Definition orderClient : GrpcClient :=
  mkClient 0 "OrderService" "localhost:5000" Insecure ∅ orderMethods.

Definition orderProxy : Proxy :=
  mkProxy (mkOptions None JUndefined JUndefined JUndefined JUndefined None)
          "localhost:5000" [ {[ "OrderService" := orderMethods ]} ] ∅ [] ∅.

Definition isObjectValue (v : jsval) : bool :=
  match v with
  | JObj _ => true
  | _ => false
  end.

(** ** Proof automation *)

Ltac reduce_handlers :=
  cbv [step streamOnData streamOnError streamOnEnd unaryStreamCallback
       unaryPlainCallback unaryStreamCallbackOn unaryPlainCallbackOn
       observer_next_unsubscribing setClientCanceled
       upstreamNext upstreamError upstreamComplete
       call_emit_error observer_error observer_complete observer_terminal
       observer_next unsubscribe teardown streamTeardown unaryStreamTeardown
       unaryPlainTeardown releaseUpstream unsubscribeUpstream markCanceled
       call_write call_end call_destroy call_cancel call_removeAllListeners
       andThen branch emit modify ret upstreamLive upstreamOf closeUpstream
       cancellationState isStream hasUpstream swallows denotesCancelled
       detailsCancelled set_vars set_closed set_listening set_finished
       vars finished listening closed sub_closed negb andb orb fst snd app].

Ltac case_tests :=
  repeat match goal with
         | |- context [strictEqStr ?a ?b] => destruct (strictEqStr a b) eqn:?
         | |- context [strictEqNum ?a ?b] => destruct (strictEqNum a b) eqn:?
         end.

(** Every shape of a subscription state. *)
Ltac destruct_inv st :=
  destruct st as [[[] [[[]]|]|[] [[]]|] [] [] []].

Ltac destruct_event ev :=
  destruct ev as [?data|?error|
                  |[?error|] ?data| |?val|?err| | |?data].

Ltac handler_cases :=
  reduce_handlers; case_tests; reduce_handlers; try (vm_compute; done).

(** ** Traces *)

Lemma emitted_app (t1 t2 : list Effect) :
  emitted (t1 ++ t2) = emitted t1 ++ emitted t2.
Proof. unfold emitted. apply omap_app. Qed.

Lemma observerCalls_app (t1 t2 : list Effect) :
  observerCalls (t1 ++ t2) = observerCalls t1 ++ observerCalls t2.
Proof. unfold observerCalls. apply omap_app. Qed.

Lemma writes_app (t1 t2 : list Effect) :
  writes (t1 ++ t2) = writes t1 ++ writes t2.
Proof. unfold writes. apply omap_app. Qed.

Lemma count_app (p : Effect -> bool) (t1 t2 : list Effect) :
  count p (t1 ++ t2) = count p t1 + count p t2.
Proof. unfold count. by rewrite List.filter_app, length_app. Qed.

Lemma run_cons (ser : ServiceError -> jsval) (ev : Event) (evs : list Event)
    (st : Inv) :
  run ser (ev :: evs) st =
  ((run ser evs (step ser ev st).1).1,
   (step ser ev st).2 ++ (run ser evs (step ser ev st).1).2).
Proof.
  cbn [run]. unfold andThen.
  destruct (step ser ev st) as [st1 t1]. cbn.
  by destruct (run ser evs st1).
Qed.


(** A closed subscriber stays closed and receives nothing. *)
Lemma step_closed (ser : ServiceError -> jsval) (ev : Event) (st : Inv) :
  closed st = true ->
  closed (step ser ev st).1 = true
  /\ emitted (step ser ev st).2 = []
  /\ count isCancel (step ser ev st).2 = 0.
Proof.
  destruct_inv st; cbn; intros ?; try discriminate.
  all: destruct_event ev; handler_cases.
Qed.

Lemma run_closed (ser : ServiceError -> jsval) (evs : list Event) (st : Inv) :
  closed st = true ->
  closed (run ser evs st).1 = true
  /\ emitted (run ser evs st).2 = []
  /\ count isCancel (run ser evs st).2 = 0.
Proof.
  revert st. induction evs as [|ev evs IH]; intros st Hc.
  - by cbn.
  - rewrite run_cons. cbn [fst snd].
    destruct (step_closed ser ev st Hc) as (Hc1 & He1 & Hk1).
    destruct (IH _ Hc1) as (Hc2 & He2 & Hk2).
    rewrite emitted_app, count_app, He1, He2, Hk1, Hk2. auto.
Qed.

(** ** The response stream ends once *)

Lemma singleTerminal_values (l1 l2 : list ObsEvent) :
  valuesOnly l1 = true -> singleTerminal (l1 ++ l2) = singleTerminal l2.
Proof.
  induction l1 as [|ev l1 IH]; [done|].
  destruct ev; cbn; intros H; try discriminate. by apply IH.
Qed.

(** One step of an open subscriber: values only while it stays open. *)
Lemma step_open (ser : ServiceError -> jsval) (ev : Event) (st : Inv) :
  closed st = false ->
  singleTerminal (emitted (step ser ev st).2) = true
  /\ (closed (step ser ev st).1 = false ->
      valuesOnly (emitted (step ser ev st).2) = true).
Proof.
  destruct_inv st; cbn; intros ?; try discriminate.
  all: destruct_event ev; handler_cases.
Qed.

Lemma run_singleTerminal (ser : ServiceError -> jsval) (evs : list Event)
    (st : Inv) :
  singleTerminal (emitted (run ser evs st).2) = true.
Proof.
  revert st. induction evs as [|ev evs IH]; intros st; [done|].
  rewrite run_cons. cbn [fst snd]. rewrite emitted_app.
  destruct (closed st) eqn:Hc.
  - destruct (step_closed ser ev st Hc) as (Hc1 & -> & _).
    cbn. apply IH.
  - destruct (step_open ser ev st Hc) as (H1 & H2).
    destruct (closed (step ser ev st).1) eqn:Hc1.
    + destruct (run_closed ser evs _ Hc1) as (_ & -> & _).
      by rewrite app_nil_r.
    + rewrite singleTerminal_values; auto.
Qed.

(** The closure of a subscription keeps its shape. *)
Lemma step_isStream (ser : ServiceError -> jsval) (ev : Event) (st : Inv) :
  isStream (step ser ev st).1 = isStream st.
Proof.
  unfold isStream.
  destruct_inv st; destruct_event ev; handler_cases.
Qed.

Lemma run_isStream (ser : ServiceError -> jsval) (evs : list Event) (st : Inv) :
  isStream (run ser evs st).1 = isStream st.
Proof.
  revert st. induction evs as [|ev evs IH]; intros st; [done|].
  rewrite run_cons. cbn [fst]. by rewrite IH, step_isStream.
Qed.

(** C5, as amended: the response stream of every subscription delivers at
    most one terminal event, and nothing after it, whatever the transport,
    the request stream and the consumer do: the subscriber of the response
    stream is closed by its first terminal event and drops what the adapter
    passes to it afterwards.  On a graceful end the streaming adapter also
    removes all listeners from the call handle, once, while they are
    registered. *)
Theorem single_terminal_event (ser : ServiceError -> jsval)
    (methodName : string) (isRequestStream : bool) (args : list jsval)
    (st0 : Inv) (evs : list Event) :
  let st := (run ser evs (streamSubscribe methodName isRequestStream args).1).1 in
  singleTerminal (emitted (run ser evs st0).2) = true
  /\ count isRemoveAllListeners (step ser CallEnd st).2
     = (if listening st then 1 else 0)
  /\ listening (step ser CallEnd st).1 = false.
Proof.
  intros st. split; [apply run_singleTerminal|].
  assert (Hs : isStream st = true).
  { unfold st. rewrite run_isStream. unfold streamSubscribe.
    by destruct (_ && _). }
  clearbody st. unfold isStream in Hs.
  destruct_inv st; try discriminate Hs.
  all: split; handler_cases.
Qed.

(** C5, counterexample: a server-streaming call reports an error.  The error
    is the terminal event of the response stream, yet no listener is removed:
    the listeners stay registered, and a later 'end' still runs the listener
    of the adapter. *)
Lemma error_keeps_listeners :
  let st0 := (streamSubscribe "WatchOrders" false []).1 in
  let r := step messageOnly (CallError errInternal) st0 in
  emitted r.2 = [ObsError (messageOnly errInternal)]
  /\ count isRemoveAllListeners r.2 = 0
  /\ listening r.1 = true
  /\ (step messageOnly CallEnd r.1).2
     = [RemoveAllListeners; Observer ObsComplete false].
Proof. by vm_compute. Qed.

(** ** The unary adapter *)

Lemma unarySubscribe_unaryState (methodName : string) (isRequestStream : bool)
    (args : list jsval) :
  unaryState (unarySubscribe methodName isRequestStream args).1 = true.
Proof. unfold unarySubscribe. by destruct (_ && _). Qed.

Lemma step_unaryState (ser : ServiceError -> jsval) (ev : Event) (st : Inv) :
  unaryState st = true ->
  unaryState (step ser ev st).1 = true
  /\ unaryDelivery (emitted (step ser ev st).2) = true
  /\ (closed (step ser ev st).1 = false -> emitted (step ser ev st).2 = [])
  /\ (isCallbackUnsubscribing ev = false ->
      unaryOutcome (emitted (step ser ev st).2) = true).
Proof.
  unfold unaryState.
  destruct_inv st; cbn; intros ?; try discriminate.
  all: destruct_event ev; handler_cases.
Qed.

Lemma run_unaryState (ser : ServiceError -> jsval) (evs : list Event) (st : Inv) :
  unaryState st = true ->
  unaryState (run ser evs st).1 = true
  /\ unaryDelivery (emitted (run ser evs st).2) = true
  /\ (forallb (fun ev => negb (isCallbackUnsubscribing ev)) evs = true ->
      unaryOutcome (emitted (run ser evs st).2) = true).
Proof.
  revert st. induction evs as [|ev evs IH]; intros st Hu; [done|].
  rewrite run_cons. cbn [fst snd]. rewrite emitted_app.
  destruct (step_unaryState ser ev st Hu) as (Hu1 & Ho1 & He1 & Hs1).
  destruct (IH _ Hu1) as (Hu2 & Ho2 & Hs2). split; [done|].
  destruct (closed (step ser ev st).1) eqn:Hc1.
  - destruct (run_closed ser evs _ Hc1) as (_ & -> & _).
    rewrite app_nil_r. split; [done|].
    cbn [forallb]. intros [H _]%andb_prop. apply Hs1.
    by destruct (isCallbackUnsubscribing ev).
  - rewrite (He1 eq_refl). split; [done|].
    cbn [forallb]. intros [_ H]%andb_prop. by apply Hs2.
Qed.

(** C1, as amended: for every unary invocation, of the plain and of the
    request-stream shape, the response stream emits at most one value and
    nothing after a completion or an error: it delivers nothing, or one value
    and then the completion, or one error, or, when the consumer unsubscribes
    inside its [next] handler, the value alone; the last case apart, a value
    is always followed by the completion.  The completion callback called
    without an error calls [observer.next] once and then [observer.complete]
    once; an open subscriber receives both, unless it unsubscribes inside
    [next], when it receives the value only.  Called with an error the
    callback calls [observer.error] once with the normalized error and
    [observer.next] never, except in the request-stream shape when the error
    denotes cancellation and the consumer has cancelled: then it destroys the
    call handle and calls nothing on the observer. *)
Theorem unary_response_stream (ser : ServiceError -> jsval)
    (methodName : string) (isRequestStream : bool) (args : list jsval)
    (evs : list Event) :
  let st0 := (unarySubscribe methodName isRequestStream args).1 in
  let st := (run ser evs st0).1 in
  unaryDelivery (emitted (run ser evs st0).2) = true
  /\ (forallb (fun ev => negb (isCallbackUnsubscribing ev)) evs = true ->
      unaryOutcome (emitted (run ser evs st0).2) = true)
  /\ (forall data,
        observerCalls (step ser (Callback None data) st).2
        = [ObsNext data; ObsComplete]
        /\ (closed st = false ->
            emitted (step ser (Callback None data) st).2
            = [ObsNext data; ObsComplete])
        /\ observerCalls (step ser (CallbackUnsubscribing data) st).2
           = [ObsNext data; ObsComplete]
        /\ (closed st = false ->
            emitted (step ser (CallbackUnsubscribing data) st).2
            = [ObsNext data]))
  /\ (forall error data,
        observerCalls (step ser (Callback (Some error) data) st).2
        = (if swallows st error then [] else [ObsError (ser error)])
        /\ (swallows st error = true ->
            step ser (Callback (Some error) data) st = (st, [Destroy]))).
Proof.
  intros st0 st.
  destruct (run_unaryState ser evs st0) as (Hu & Ho & Hs).
  { apply unarySubscribe_unaryState. }
  split; [done|]. split; [done|]. fold st in Hu. clearbody st. clear Ho Hs st0.
  unfold unaryState in Hu.
  destruct_inv st; try discriminate Hu.
  all: split;
    [intros data; split; [|split; [|split]]|intros error data; split];
    handler_cases.
Qed.

Lemma unary_response_stream_witness :
  let st0 := (unarySubscribe "GetUser" false [JNum 7]).1 in
  closed st0 = false
  /\ emitted (step messageOnly (Callback None (JStr "A")) st0).2
     = [ObsNext (JStr "A"); ObsComplete]
  /\ emitted (step messageOnly (CallbackUnsubscribing (JStr "A")) st0).2
     = [ObsNext (JStr "A")].
Proof.
  intros st0.
  assert (Hc : closed st0 = false) by reflexivity.
  refine (conj Hc _).
  pose proof (proj1 (proj2 (proj2 (unary_response_stream messageOnly "GetUser"
                                     false [JNum 7] []))) (JStr "A")) as H.
  exact (conj (proj1 (proj2 H) Hc) (proj2 (proj2 (proj2 H)) Hc)).
Defined.

(** C1, counterexample: a client-streaming unary call whose consumer
    unsubscribes; the transport then reports the cancellation to the
    completion callback.  The callback destroys the call and returns: no
    error reaches the observer, where the claim has exactly one. *)
Lemma unary_error_callback_swallowed :
  let st0 := (unarySubscribe "Upload" true [requestSubject]).1 in
  let st := (run messageOnly [Unsubscribe] st0).1 in
  let t := (step messageOnly (Callback (Some errCancelledOnClient) JUndefined) st).2 in
  t = [Destroy]
  /\ observerCalls t = []
  /\ observerCalls t <> [ObsError (messageOnly errCancelledOnClient)].
Proof. by vm_compute. Qed.

(** C2, as amended: in the request-stream shape of the unary adapter, when
    the completion callback receives an error denoting cancellation and the
    Cancellation State is true, the call handle is destroyed and nothing is
    passed to the observer; and when the consumer unsubscribes from a call
    that is not finished, the adapter releases the upstream subscription,
    then sets the Cancellation State, then issues [cancel()], in this order,
    so that a cancellation error reported from then on is swallowed.  The
    plain shape has no Cancellation State: unsubscribing from a call that is
    not finished only issues [cancel()], and its callback passes every error,
    normalized, to [observer.error] and never destroys the call handle; a
    consumer that has unsubscribed does not receive it. *)
Theorem unary_cancellation (ser : ServiceError -> jsval) (st : Inv)
    (error : ServiceError) (data : jsval) :
  unaryState st = true ->
  (isRequestStreamShape st = true ->
   (denotesCancelled error = true -> cancellationState st = Some true ->
    step ser (Callback (Some error) data) st = (st, [Destroy]))
   /\ (closed st = false -> finished st = false ->
       (step ser Unsubscribe st).2
       = [UpstreamUnsubscribe; IsClientCanceled true; Cancel]
       /\ cancellationState (step ser Unsubscribe st).1 = Some true
       /\ (denotesCancelled error = true ->
           step ser (Callback (Some error) data) (step ser Unsubscribe st).1
           = ((step ser Unsubscribe st).1, [Destroy]))))
  /\ (isPlainShape st = true ->
      cancellationState st = None
      /\ cancellationState (step ser Unsubscribe st).1 = None
      /\ (closed st = false -> finished st = false ->
          step ser Unsubscribe st = (set_closed true st, [Cancel]))
      /\ count isDestroy (step ser (Callback (Some error) data) st).2 = 0
      /\ observerCalls (step ser (Callback (Some error) data) st).2
         = [ObsError (ser error)]
      /\ (closed st = true ->
          step ser (Callback (Some error) data) st
          = (st, [Observer (ObsError (ser error)) false]))).
Proof.
  unfold unaryState, isRequestStreamShape, isPlainShape.
  destruct_inv st; cbn; intros ?; try discriminate.
  all: split; intros ?; try discriminate.
  all: repeat match goal with
              | |- _ /\ _ => split
              | |- _ -> _ => intros ?
              end; try discriminate.
  all: unfold denotesCancelled in *; handler_cases.
Qed.

Lemma unary_cancellation_witness :
  let st := (run messageOnly [Unsubscribe]
               (unarySubscribe "Upload" true [requestSubject]).1).1 in
  unaryState st = true
  /\ isRequestStreamShape st = true
  /\ denotesCancelled errCancelledOnClient = true
  /\ cancellationState st = Some true
  /\ step messageOnly (Callback (Some errCancelledOnClient) JUndefined) st
     = (st, [Destroy]).
Proof.
  intros st.
  assert (Hu : unaryState st = true) by reflexivity.
  assert (Hr : isRequestStreamShape st = true) by reflexivity.
  assert (Hd : denotesCancelled errCancelledOnClient = true) by reflexivity.
  assert (Hc : cancellationState st = Some true) by reflexivity.
  refine (conj Hu (conj Hr (conj Hd (conj Hc _)))).
  exact (proj1 (proj1 (unary_cancellation messageOnly st errCancelledOnClient
                         JUndefined Hu) Hr) Hd Hc).
Defined.

(** C2, counterexample: the plain shape.  Unsubscribing from a call that is
    not finished issues [cancel()] and marks nothing, there being no
    Cancellation State; when the transport then reports the cancellation, the
    callback does not destroy the call handle and calls [observer.error]. *)
Lemma plain_unary_has_no_cancellation_state :
  let st0 := (unarySubscribe "GetUser" false [JNum 7]).1 in
  let r := step messageOnly Unsubscribe st0 in
  finished st0 = false
  /\ r.2 = [Cancel]
  /\ cancellationState r.1 <> Some true
  /\ (step messageOnly (Callback (Some errCancelled) JUndefined) r.1).2
     = [Observer (ObsError (messageOnly errCancelled)) false]
  /\ count isDestroy
       (step messageOnly (Callback (Some errCancelled) JUndefined) r.1).2 = 0.
Proof. by vm_compute. Qed.

(** ** Cancellation-class errors in the streaming adapter *)

(** What the listener of 'error' does, for every error: the call handle is
    destroyed exactly when [details] is the cancellation message, and the
    observer is passed over exactly when moreover the consumer cancelled. *)
Lemma stream_error_listener (ser : ServiceError -> jsval) (st : Inv)
    (error : ServiceError) :
  isStream st = true -> listening st = true ->
  count isDestroy (step ser (CallError error) st).2
  = (if detailsCancelled error then 1 else 0)
  /\ observerCalls (step ser (CallError error) st).2
     = (if detailsCancelled error && consumerCancelled st then []
        else [ObsError (ser error)]).
Proof.
  unfold isStream, consumerCancelled.
  destruct_inv st; cbn; intros ? ?; try discriminate.
  all: split; handler_cases.
Qed.

(** C3, the code at the failing input: a streaming call whose consumer has
    unsubscribed, and an error that carries the cancellation status code 1
    with the details "Cancelled on client".  The listener of the streaming
    adapter tests the details only: it does not destroy the call handle and
    calls [observer.error].  The completion callback of the unary adapter, on
    the same error and the same Cancellation State, destroys the call handle
    and calls nothing. *)
Theorem stream_ignores_cancelled_status_code :
  let st := (run messageOnly [Unsubscribe]
               (streamSubscribe "WatchOrders" false []).1).1 in
  let st' := (run messageOnly [Unsubscribe]
                (unarySubscribe "Upload" true [requestSubject]).1).1 in
  cancellationState st = Some true
  /\ denotesCancelled errCancelledOnClient = true
  /\ (step messageOnly (CallError errCancelledOnClient) st).2
     = [Observer (ObsError (messageOnly errCancelledOnClient)) false]
  /\ cancellationState st' = Some true
  /\ (step messageOnly (Callback (Some errCancelledOnClient) JUndefined) st').2
     = [Destroy].
Proof. by vm_compute. Qed.

(** ** Cancelling the response stream *)

Lemma unsubscribe_closes (ser : ServiceError -> jsval) (st : Inv) :
  closed (step ser Unsubscribe st).1 = true.
Proof. destruct_inv st; handler_cases. Qed.

Lemma unsubscribe_closed (ser : ServiceError -> jsval) (st : Inv) :
  closed st = true -> step ser Unsubscribe st = (st, []).
Proof. destruct_inv st; cbn; intros ?; try discriminate; handler_cases. Qed.

Lemma unsubscribe_repeat (ser : ServiceError -> jsval) (st : Inv) (n : nat) :
  run ser (repeat Unsubscribe (S n)) st = step ser Unsubscribe st.
Proof.
  cbn [repeat]. rewrite run_cons.
  assert (H : forall s, closed s = true ->
                        run ser (repeat Unsubscribe n) s = (s, [])).
  { induction n as [|n IH]; intros s Hs; [done|].
    cbn [repeat]. rewrite run_cons, (unsubscribe_closed ser s Hs).
    cbn [fst snd]. by rewrite (IH s Hs). }
  rewrite (H _ (unsubscribe_closes ser st)). cbn [fst snd].
  rewrite app_nil_r. by destruct (step ser Unsubscribe st).
Qed.

(** [cancel()] is only issued by the step that closes the subscriber. *)
Lemma step_cancel_open (ser : ServiceError -> jsval) (ev : Event) (st : Inv) :
  closed st = false ->
  count isCancel (step ser ev st).2 <= 1
  /\ (closed (step ser ev st).1 = false ->
      count isCancel (step ser ev st).2 = 0).
Proof.
  destruct_inv st; cbn; intros ?; try discriminate.
  all: destruct_event ev; handler_cases.
  all: vm_compute; split; [lia|done].
Qed.

Lemma run_cancel_once (ser : ServiceError -> jsval) (evs : list Event)
    (st : Inv) :
  count isCancel (run ser evs st).2 <= 1.
Proof.
  revert st. induction evs as [|ev evs IH]; intros st; [cbn; lia|].
  rewrite run_cons. cbn [fst snd]. rewrite count_app.
  destruct (closed st) eqn:Hc.
  - destruct (step_closed ser ev st Hc) as (Hc1 & _ & ->).
    destruct (run_closed ser evs _ Hc1) as (_ & _ & ->). lia.
  - destruct (step_cancel_open ser ev st Hc) as (H1 & H2).
    destruct (closed (step ser ev st).1) eqn:Hc1.
    + destruct (run_closed ser evs _ Hc1) as (_ & _ & ->). lia.
    + rewrite (H2 eq_refl). apply IH.
Qed.

(** C4, as amended: cancelling the response stream of any subscription, in
    any state, is idempotent: unsubscribing repeatedly does what unsubscribing
    once does.  Over the whole life of a subscription [cancel()] is issued at
    most once.  Unsubscribing before the terminal event issues it exactly once
    when the call is not finished.  When the call is finished it issues no
    [cancel()] and leaves the Cancellation State, the finished flag and the
    listeners as they are; the only thing it does is to release the upstream
    subscription, when the subscription has one. *)
Theorem cancel_response_stream (ser : ServiceError -> jsval) (st : Inv)
    (evs : list Event) (n : nat) :
  run ser (repeat Unsubscribe (S n)) st = step ser Unsubscribe st
  /\ count isCancel (run ser evs st).2 <= 1
  /\ (closed st = false -> finished st = false ->
      count isCancel (step ser Unsubscribe st).2 = 1)
  /\ (closed st = false -> finished st = true ->
      (step ser Unsubscribe st).2
      = (if hasUpstream st then [UpstreamUnsubscribe] else [])
      /\ count isCancel (step ser Unsubscribe st).2 = 0
      /\ cancellationState (step ser Unsubscribe st).1 = cancellationState st
      /\ finished (step ser Unsubscribe st).1 = true
      /\ listening (step ser Unsubscribe st).1 = listening st).
Proof.
  split; [apply unsubscribe_repeat|].
  split; [apply run_cancel_once|].
  destruct_inv st; cbn; split; intros ? ?; try discriminate.
  all: handler_cases.
Qed.

Lemma cancel_response_stream_witness :
  let st := (streamSubscribe "WatchOrders" false []).1 in
  closed st = false /\ finished st = false
  /\ count isCancel (step messageOnly Unsubscribe st).2 = 1.
Proof.
  intros st.
  assert (Hc : closed st = false) by reflexivity.
  assert (Hf : finished st = false) by reflexivity.
  refine (conj Hc (conj Hf _)).
  exact (proj1 (proj2 (proj2 (cancel_response_stream messageOnly st [] 0)))
           Hc Hf).
Defined.

(** C4, counterexample: a bidirectional call that the transport has marked
    finished, its 'end' not yet delivered.  Unsubscribing is not a no-op: the
    adapter unsubscribes from the request stream and clears its variable. *)
Lemma cancel_after_finish_releases_upstream :
  let st0 := (streamSubscribe "Chat" true [requestSubject]).1 in
  let st := (run messageOnly [CallFinished] st0).1 in
  let r := step messageOnly Unsubscribe st in
  finished st = true /\ closed st = false
  /\ r.2 = [UpstreamUnsubscribe]
  /\ upstreamOf st = Some (mkSubscription false)
  /\ upstreamOf r.1 = None.
Proof. by vm_compute. Qed.

(** ** Forwarding the request stream *)

Lemma step_upstream (ser : ServiceError -> jsval) (ev : Event) (st : Inv) :
  writes (step ser ev st).2
  = (if upstreamLive st
     then match ev with UpstreamNext v => [v] | _ => [] end
     else [])
  /\ count isEnd (step ser ev st).2
     = (if upstreamLive st && isUpstreamComplete ev then 1 else 0)
  /\ count isOpen (step ser ev st).2 = 0
  /\ (upstreamLive st && negb (isUpstreamComplete ev) = false ->
      upstreamLive (step ser ev st).1 = false).
Proof.
  destruct_inv st; destruct_event ev; handler_cases.
Qed.

Lemma run_not_live (ser : ServiceError -> jsval) (evs : list Event) (st : Inv) :
  upstreamLive st = false ->
  writes (run ser evs st).2 = [] /\ count isEnd (run ser evs st).2 = 0.
Proof.
  revert st. induction evs as [|ev evs IH]; intros st Hl; [done|].
  rewrite run_cons. cbn [fst snd]. rewrite writes_app, count_app.
  destruct (step_upstream ser ev st) as (-> & -> & _ & H).
  rewrite Hl in *. cbn [andb] in *. destruct (IH _ (H eq_refl)) as (-> & ->).
  done.
Qed.


Lemma run_end_once (ser : ServiceError -> jsval) (evs : list Event) (st : Inv) :
  count isEnd (run ser evs st).2 <= 1.
Proof.
  revert st. induction evs as [|ev evs IH]; intros st; [cbn; lia|].
  rewrite run_cons. cbn [fst snd]. rewrite count_app.
  destruct (step_upstream ser ev st) as (_ & -> & _ & H).
  destruct (upstreamLive st) eqn:Hl; cbn [andb].
  - destruct (isUpstreamComplete ev) eqn:Hev.
    + destruct (run_not_live ser evs _ (H eq_refl)) as (_ & ->). lia.
    + apply IH.
  - apply IH.
Qed.




Lemma step_released (ser : ServiceError -> jsval) (ev : Event) (st : Inv) :
  released st = true -> released (step ser ev st).1 = true.
Proof.
  unfold released.
  destruct_inv st; cbn; intros ?; try discriminate.
  all: destruct_event ev; handler_cases.
Qed.






(** While the request stream is being subscribed to, nothing but the request
    stream acts on the subscription. *)
Lemma step_during (ser : ServiceError -> jsval) (e : Emission) (st : Inv) :
  listening st = false ->
  let r := step ser (asEvent e) st in
  listening r.1 = false /\ closed r.1 = closed st
  /\ cancellationState r.1 = cancellationState st
  /\ isStream r.1 = isStream st /\ finished r.1 = finished st
  /\ isRequestStreamShape r.1 = isRequestStreamShape st
  /\ r.2 = (if upstreamLive st then requestActions [asEvent e] else [])
  /\ upstreamLive r.1
     = upstreamLive st && negb (isUpstreamTerminal (asEvent e)).
Proof.
  destruct_inv st; cbn; intros ?; try discriminate.
  all: destruct e; handler_cases.
Qed.


Lemma whileOpen_during (ser : ServiceError -> jsval) (during : list Emission)
    (st : Inv) :
  listening st = false -> closed st = false ->
  whileOpen ser (asEvent <$> during) st = asEvent <$> during.
Proof.
  revert st. induction during as [|e during IH]; intros st Hl Hc; [done|].
  rewrite fmap_cons. cbn [whileOpen]. rewrite Hc. f_equal.
  destruct (step_during ser e st Hl) as (H1 & H2 & _).
  apply IH; [done|]. by rewrite H2.
Qed.








(** ** The dispatcher *)

(** C7: for a method the client resolves, [createServiceMethod] reads the
    [responseStream] flag of the method once, returns the service method of
    the streaming adapter when the flag is true and the one of the unary
    adapter otherwise, and does nothing else: no call handle exists that did
    not exist before, and the read is all it adds to the trace.  Invoking the
    service method reads [requestStream] and never [responseStream] again. *)
Theorem dispatch_by_responseStream (client : GrpcClient) (methodName : string)
    (method : MethodDescriptor) (args : list jsval) (w w' : World) :
  client_methods client !! methodName = Some method ->
  createServiceMethod client methodName w
  = (Ok (if responseStream method
         then createStreamServiceMethod client methodName
         else createUnaryServiceMethod client methodName),
     mkWorld (invocations w)
             (wtrace w ++ [DescriptorRead methodName "responseStream"]))
  /\ wtrace (createStreamServiceMethod client methodName args w').2
     = wtrace w' ++ [DescriptorRead methodName "requestStream"]
  /\ wtrace (createUnaryServiceMethod client methodName args w').2
     = wtrace w' ++ [DescriptorRead methodName "requestStream"].
Proof.
  intros Hm.
  unfold createServiceMethod, createStreamServiceMethod,
    createUnaryServiceMethod.
  rewrite Hm. by cbn.
Qed.

Lemma dispatch_by_responseStream_witness :
  client_methods orderClient !! "WatchOrders" = Some (mkMethod false true)
  /\ createServiceMethod orderClient "WatchOrders" emptyWorld
     = (Ok (createStreamServiceMethod orderClient "WatchOrders"),
        mkWorld [] [DescriptorRead "WatchOrders" "responseStream"]).
Proof.
  assert (Hm : client_methods orderClient !! "WatchOrders"
               = Some (mkMethod false true)) by reflexivity.
  refine (conj Hm _).
  exact (proj1 (dispatch_by_responseStream orderClient "WatchOrders"
                  (mkMethod false true) [] emptyWorld emptyWorld Hm)).
Defined.

(** ** Invocation and subscription *)

Lemma transportActions_app (t1 t2 : list WEffect) :
  transportActions (t1 ++ t2) = transportActions t1 ++ transportActions t2.
Proof. unfold transportActions. apply omap_app. Qed.

Lemma transportActions_call (handle : nat) (t : list Effect) :
  transportActions (CallEffect handle <$> t) = (fun e => (handle, e)) <$> t.
Proof. induction t as [|e t IH]; [done|]. cbn. by rewrite <- IH. Qed.

Lemma subscribeFor_opens_once (responseStream : bool) (methodName : string)
    (isRequestStream : bool) (args : list jsval) :
  count isOpen (subscribeFor responseStream methodName isRequestStream args).2 = 1
  /\ cancellationState
       (subscribeFor responseStream methodName isRequestStream args).1
     <> Some true
  /\ closed (subscribeFor responseStream methodName isRequestStream args).1
     = false.
Proof.
  unfold subscribeFor, streamSubscribe, unarySubscribe, unaryStreamSubscribe,
    unaryPlainSubscribe.
  destruct responseStream; destruct (_ && _); by cbn.
Qed.

Lemma subscribeFor_cancellationState (responseStream : bool)
    (methodName : string) (isRequestStream : bool) (args : list jsval) :
  cancellationState
    (subscribeFor responseStream methodName isRequestStream args).1
  = (if responseStream || (isRequestStream && isUpstreamSubject (arg 0 args))
     then Some false else None).
Proof.
  unfold subscribeFor, streamSubscribe, unarySubscribe, unaryStreamSubscribe,
    unaryPlainSubscribe.
  destruct responseStream; destruct (_ && _); by cbn.
Qed.

Lemma deliver_length (ser : ServiceError -> jsval) (h : nat) (ev : Event)
    (w : World) :
  length (invocations (deliver ser h ev w)) = length (invocations w).
Proof.
  unfold deliver. destruct (invocations w !! h) as [st|]; [|done].
  destruct (step ser ev st) as [st' t]. cbn. apply length_insert.
Qed.

Lemma deliver_other (ser : ServiceError -> jsval) (h h' : nat) (ev : Event)
    (w : World) :
  h <> h' -> invocations (deliver ser h ev w) !! h' = invocations w !! h'.
Proof.
  intros Hne. unfold deliver.
  destruct (invocations w !! h) as [st|]; [|done].
  destruct (step ser ev st) as [st' t]. cbn.
  by apply list_lookup_insert_ne.
Qed.

(** C8, as amended: invoking a service method, of either adapter and with any
    arguments, returns the Observable and performs no transport action: it
    reads the [requestStream] flag, and neither the call handles nor the
    actions on them change.  Each subscription to the Observable opens one
    call whose handle did not exist before, so two subscriptions own distinct
    handles; each starts open, with the state its subscribe function creates,
    whatever happened to an earlier subscription: a Cancellation State of its
    own, false at first, in the streaming adapter and in the request-stream
    shape of the unary adapter, and none in the plain shape of the unary
    adapter; and an event delivered to one handle leaves the state of the
    other untouched. *)
Theorem invocation_is_lazy (ser : ServiceError -> jsval) (client : GrpcClient)
    (methodName : string) (method : MethodDescriptor) (args : list jsval)
    (w w1 : World) (ev : Event) :
  client_methods client !! methodName = Some method ->
  let sub := subscribeFor (responseStream method) methodName
               (requestStream method) args in
  let invoked := serviceMethodFor client methodName method args w in
  let first := openCall sub w1 in
  let second := openCall sub first.2 in
  invoked.1 = Ok (openCall sub)
  /\ invocations invoked.2 = invocations w
  /\ transportActions (wtrace invoked.2) = transportActions (wtrace w)
  /\ first.1 = length (invocations w1)
  /\ invocations w1 !! first.1 = None
  /\ second.1 = S first.1
  /\ invocations second.2 !! first.1 = Some sub.1
  /\ invocations second.2 !! second.1 = Some sub.1
  /\ transportActions (wtrace first.2)
     = transportActions (wtrace w1) ++ ((fun e => (first.1, e)) <$> sub.2)
  /\ transportActions (wtrace second.2)
     = transportActions (wtrace first.2) ++ ((fun e => (second.1, e)) <$> sub.2)
  /\ count isOpen sub.2 = 1
  /\ cancellationState sub.1
     = (if responseStream method
           || (requestStream method && isUpstreamSubject (arg 0 args))
        then Some false else None)
  /\ closed sub.1 = false
  /\ invocations (openCall sub (deliver ser first.1 ev first.2)).2
     !! (openCall sub (deliver ser first.1 ev first.2)).1
     = Some sub.1
  /\ invocations (deliver ser first.1 ev second.2) !! second.1
     = invocations second.2 !! second.1
  /\ invocations (deliver ser second.1 ev second.2) !! first.1
     = invocations second.2 !! first.1.
Proof.
  intros Hm sub invoked first second.
  assert (Hinv : invoked = (Ok (openCall sub),
                            logW (DescriptorRead methodName "requestStream") w)).
  { unfold invoked, serviceMethodFor, sub, subscribeFor,
      createStreamServiceMethod, createUnaryServiceMethod.
    unfold unarySubscribe. rewrite Hm.
    destruct (responseStream method); [done|]. cbn.
    by destruct (_ && _). }
  destruct (subscribeFor_opens_once (responseStream method) methodName
              (requestStream method) args) as (Ho & _ & Hcl).
  pose proof (subscribeFor_cancellationState (responseStream method) methodName
                (requestStream method) args) as Hc.
  pose proof (deliver_length ser (length (invocations w1)) ev
                (openCall sub w1).2) as Hlen.
  rewrite Hinv. subst first second. unfold openCall in *.
  cbn [fst snd invocations wtrace logW] in *.
  rewrite !transportActions_app, !transportActions_call, !length_app.
  cbn [length transportActions omap list_omap]. rewrite !app_nil_r.
  repeat match goal with |- _ /\ _ => split end; try done.
  - apply lookup_ge_None_2. lia.
  - lia.
  - rewrite lookup_app_l by (rewrite length_app; cbn; lia).
    rewrite lookup_app_r by lia. by rewrite Nat.sub_diag.
  - rewrite lookup_app_r by (rewrite length_app; cbn; lia).
    rewrite length_app. cbn [length].
    by replace (_ - _) with 0 by lia.
  - rewrite lookup_app_r by lia. by rewrite Nat.sub_diag.
  - apply deliver_other. lia.
  - apply deliver_other. lia.
Qed.

Lemma invocation_is_lazy_witness :
  client_methods orderClient !! "Chat" = Some (mkMethod true true)
  /\ invocations (serviceMethodFor orderClient "Chat" (mkMethod true true)
                    [requestSubject] emptyWorld).2
     = invocations emptyWorld.
Proof.
  assert (Hm : client_methods orderClient !! "Chat" = Some (mkMethod true true))
    by reflexivity.
  refine (conj Hm _).
  exact (proj1 (proj2 (invocation_is_lazy messageOnly orderClient "Chat"
                         (mkMethod true true) [requestSubject] emptyWorld
                         emptyWorld Unsubscribe Hm))).
Defined.

(** C8, as worded in the claim, fails in the plain shape of the unary
    adapter: the subscribe function of lines 277-291 declares no
    [isClientCanceled], so a subscription to the Observable of a plain unary
    method has a call handle and no Cancellation State. *)
Lemma plain_subscription_has_no_cancellation_state :
  let sub := subscribeFor false "GetOrder" false [JNum 7] in
  (createServiceMethod orderClient "GetOrder" emptyWorld).1
  = Ok (createUnaryServiceMethod orderClient "GetOrder")
  /\ (createUnaryServiceMethod orderClient "GetOrder" [JNum 7] emptyWorld).1
     = Ok (openCall sub)
  /\ (openCall sub emptyWorld).1 = 0
  /\ cancellationState <$> invocations (openCall sub emptyWorld).2 !! 0
     = Some None
  /\ transportActions (wtrace (openCall sub emptyWorld).2)
     = [(0, Open "GetOrder" [ArgValue (JNum 7); ArgCallback])].
Proof. by vm_compute. Qed.

(** ** Unsupported operations *)

(** C9, as amended: each of [status], [connect], [send], [publish],
    [dispatchEvent], [on] and [unwrap] fails with an [Error] whose message
    says "not supported", opens no call and leaves the proxy and the
    transport as they were.  [status], [send], [publish], [on] and [unwrap]
    throw at the call site; [connect] and [dispatchEvent] are [async] and
    return a rejected promise instead. *)
Theorem unsupported_operations (op : Operation) (p : Proxy) (w : World) :
  saysNotSupported (errorOf (perform op p w).1.1) = true
  /\ (perform op p w).1.2 = p
  /\ (perform op p w).2 = w
  /\ raisedAtCallSite (perform op p w).1.1 = negb (isAsync op).
Proof. by destruct op. Qed.

(** C9, counterexample: [connect()] does not raise at the call site; the
    caller receives a promise, rejected with the error. *)
Lemma connect_rejects :
  raisedAtCallSite (perform OpConnect orderProxy emptyWorld).1.1 = false
  /\ (connect orderProxy emptyWorld).1.1
     = Rejected (Error ("The " +:+ dquote +:+ "connect()" +:+ dquote +:+
                        " method is not supported in gRPC mode."))
  /\ raisedAtCallSite
       (perform (OpDispatchEvent JNull) orderProxy emptyWorld).1.1 = false.
Proof. done. Qed.

(** ** The client registry *)

Section RegistryFacts.

Variable isObject : jsval -> bool.

Lemma createClientByServiceName_spec (name : string) (p : Proxy) :
  match getClient name p with
  | None =>
      createClientByServiceName isObject name p
      = (Throw (InvalidGrpcServiceException name), p)
  | Some _ =>
      exists c,
        createClientByServiceName isObject name p =
        (Ok c, (createClientByServiceName isObject name p).2)
        /\ clients (createClientByServiceName isObject name p).2
           = <[name := c]> (clients p)
        /\ constructed (createClientByServiceName isObject name p).2
           = constructed p ++ [c]
        /\ grpcClients (createClientByServiceName isObject name p).2
           = grpcClients p
        /\ client_id c = length (constructed p)
        /\ client_service c = name
  end.
Proof.
  unfold createClientByServiceName.
  destruct (getClient name p); [|done].
  eexists. by cbn.
Qed.

Lemma getClientByServiceName_hit (name : string) (p : Proxy) (c : GrpcClient) :
  clients p !! name = Some c ->
  getClientByServiceName isObject name p = (Ok c, p).
Proof. intros Hc. unfold getClientByServiceName. by rewrite Hc. Qed.

(** What one call of [getClientByServiceName] does to the clients of
    [name]. *)
Lemma getClientByServiceName_other (name name' : string) (p : Proxy) :
  let p' := (getClientByServiceName isObject name' p).2 in
  (forall c, clients p !! name = Some c ->
     clients p' !! name = Some c
     /\ clientsOf name (constructed p') = clientsOf name (constructed p))
  /\ (clients p !! name = None ->
      (clients p' !! name = None
       /\ clientsOf name (constructed p') = clientsOf name (constructed p))
      \/ (exists c, clients p' !! name = Some c
          /\ clientsOf name (constructed p')
             = clientsOf name (constructed p) ++ [c])).
Proof.
  unfold getClientByServiceName.
  destruct (clients p !! name') as [c'|] eqn:Hc'; cbn.
  { split; [by intros c ->|]. by left. }
  pose proof (createClientByServiceName_spec name' p) as Hs.
  destruct (getClient name' p).
  - destruct Hs as (c0 & _ & Hcl & Hco & _ & _ & Hsv).
    rewrite Hcl, Hco. unfold clientsOf. rewrite filter_app.
    destruct (decide (name' = name)) as [->|Hne].
    + split; [intros c Hc; congruence|].
      intros _. right. exists c0.
      rewrite lookup_insert_eq. split; [done|].
      f_equal. rewrite filter_cons_True by done. done.
    + rewrite lookup_insert_ne by done.
      rewrite filter_cons_False by congruence.
      rewrite filter_nil, app_nil_r.
      split; [by intros c ->|]. by left.
  - rewrite Hs. cbn. split; [by intros c ->|]. by left.
Qed.

Lemma getClientsByServiceNames_cached (name : string) (names : list string)
    (p : Proxy) (c : GrpcClient) :
  clients p !! name = Some c ->
  clients (getClientsByServiceNames isObject names p) !! name = Some c
  /\ clientsOf name (constructed (getClientsByServiceNames isObject names p))
     = clientsOf name (constructed p).
Proof.
  revert p. induction names as [|name' names IH]; intros p Hc; [done|].
  cbn [getClientsByServiceNames].
  destruct (getClientByServiceName_other name name' p) as (H1 & _).
  destruct (H1 c Hc) as (Hc' & Hk').
  destruct (IH _ Hc') as (Hc'' & Hk''). split; [done|]. congruence.
Qed.

Lemma getClientsByServiceNames_at_most_one (name : string)
    (names : list string) (p : Proxy) :
  length (clientsOf name (constructed (getClientsByServiceNames isObject names p)))
  <= length (clientsOf name (constructed p))
     + (match clients p !! name with Some _ => 0 | None => 1 end).
Proof.
  revert p. induction names as [|name' names IH]; intros p.
  { cbn. lia. }
  cbn [getClientsByServiceNames].
  destruct (getClientByServiceName_other name name' p) as (H1 & H2).
  destruct (clients p !! name) as [c|] eqn:Hc.
  - destruct (H1 c eq_refl) as (Hc' & Hk').
    destruct (getClientsByServiceNames_cached name names _ c Hc') as (_ & ->).
    rewrite Hk'. lia.
  - destruct (H2 eq_refl) as [(Hc' & Hk')|(c & Hc' & Hk')].
    + specialize (IH (getClientByServiceName isObject name' p).2).
      rewrite Hc', Hk' in IH. done.
    + destruct (getClientsByServiceNames_cached name names _ c Hc') as (_ & ->).
      rewrite Hk', length_app. cbn. lia.
Qed.

End RegistryFacts.

(** C10: [getClientByServiceName] memoizes.  For a service name that a loaded
    package defines and that has no cached client, the call builds the
    client, which is a new object, and caches it under the name.  After a
    call that returned a client, every later call with the same name, also
    after calls with other names, returns that very client and builds
    nothing.  So any sequence of calls builds at most one client for a name
    that has none cached, and none for a name that has one.  [close()] empties
    the registry. *)
Theorem getClientByServiceName_memoizes (isObject : jsval -> bool)
    (name : string) (names : list string) (p : Proxy) :
  let first := getClientByServiceName isObject name p in
  let later := getClientsByServiceNames isObject names first.2 in
  (clients p !! name = None -> is_Some (getClient name p) ->
   exists c,
     first.1 = Ok c
     /\ clients first.2 !! name = Some c
     /\ constructed first.2 = constructed p ++ [c]
     /\ client_id c = length (constructed p)
     /\ client_service c = name)
  /\ (forall c, first.1 = Ok c ->
      getClientByServiceName isObject name first.2 = (Ok c, first.2)
      /\ getClientByServiceName isObject name later = (Ok c, later)
      /\ clientsOf name (constructed later) = clientsOf name (constructed first.2))
  /\ length (clientsOf name (constructed (getClientsByServiceNames isObject names p)))
     <= length (clientsOf name (constructed p))
        + (match clients p !! name with Some _ => 0 | None => 1 end)
  /\ clients (close p) = ∅.
Proof.
  intros first later.
  assert (Hcached : forall c, first.1 = Ok c -> clients first.2 !! name = Some c).
  { intros c. unfold first, getClientByServiceName.
    destruct (clients p !! name) as [c'|] eqn:Hc'; cbn; [congruence|].
    pose proof (createClientByServiceName_spec isObject name p) as Hs.
    destruct (getClient name p).
    - destruct Hs as (c0 & He & Hcl & _). rewrite Hcl, He. cbn.
      intros [= ->]. apply lookup_insert_eq.
    - by rewrite Hs. }
  split; [|split; [|split]].
  - intros Hn [clientRef Hg]. unfold first, getClientByServiceName.
    rewrite Hn.
    pose proof (createClientByServiceName_spec isObject name p) as Hs.
    rewrite Hg in Hs. destruct Hs as (c & He & Hcl & Hco & _ & Hid & Hsv).
    exists c. rewrite He. cbn [fst snd]. rewrite Hcl, lookup_insert_eq. done.
  - intros c Hc. specialize (Hcached c Hc).
    destruct (getClientsByServiceNames_cached isObject name names _ c Hcached)
      as (Hl & Hk).
    fold later in Hl, Hk.
    by rewrite !getClientByServiceName_hit with (c := c).
  - apply getClientsByServiceNames_at_most_one.
  - done.
Qed.

Lemma getClientByServiceName_memoizes_witness :
  clients orderProxy !! "OrderService" = None
  /\ is_Some (getClient "OrderService" orderProxy)
  /\ exists c,
       (getClientByServiceName isObjectValue "OrderService" orderProxy).1 = Ok c
       /\ client_service c = "OrderService".
Proof.
  assert (Hn : clients orderProxy !! "OrderService" = None) by reflexivity.
  assert (Hg : is_Some (getClient "OrderService" orderProxy))
    by (eexists; reflexivity).
  refine (conj Hn (conj Hg _)).
  destruct (proj1 (getClientByServiceName_memoizes isObjectValue "OrderService"
                     [] orderProxy) Hn Hg) as (c & Hc & _ & _ & _ & Hs).
  exists c. split; [exact Hc|exact Hs].
Defined.

(** ** Scenarios *)

(** A unary call succeeds: the value, then the completion. *)
Example scenario_unary_success :
  emitted (run messageOnly
             [CallFinished;
              Callback None (JObj [("id", JNum 7); ("name", JStr "A")])]
             (unarySubscribe "GetUser" false [JObj [("id", JNum 7)]]).1).2
  = [ObsNext (JObj [("id", JNum 7); ("name", JStr "A")]); ObsComplete].
Proof. reflexivity. Qed.

(** A server-streaming call emits two values and ends. *)
Example scenario_stream_end :
  emitted (run messageOnly
             [CallData (JObj [("id", JNum 1)]); CallData (JObj [("id", JNum 2)]);
              CallFinished; CallEnd]
             (streamSubscribe "WatchOrders" false []).1).2
  = [ObsNext (JObj [("id", JNum 1)]); ObsNext (JObj [("id", JNum 2)]);
     ObsComplete].
Proof. reflexivity. Qed.

(** The consumer unsubscribes after the first value: one [cancel()], and the
    values and the cancellation error that still arrive are not delivered. *)
Example scenario_stream_unsubscribe :
  let t := (run messageOnly
              [CallData (JObj [("id", JNum 1)]); Unsubscribe;
               CallData (JObj [("id", JNum 2)]); CallError errCancelled]
              (streamSubscribe "WatchOrders" false []).1).2 in
  emitted t = [ObsNext (JObj [("id", JNum 1)])]
  /\ count isCancel t = 1
  /\ count isDestroy t = 1.
Proof. by vm_compute. Qed.

(** The request stream of a bidirectional call fails: the error is emitted on
    the call, surfaced once, and the upstream subscription is released. *)
Example scenario_upstream_error :
  (run messageOnly
     [UpstreamNext (JNum 1); UpstreamError errInternal; UpstreamNext (JNum 2)]
     (streamSubscribe "Chat" true [requestSubject]).1).2
  = [Write (JNum 1); EmitError errInternal;
     Observer (ObsError (messageOnly errInternal)) true;
     UpstreamUnsubscribe; IsClientCanceled true; Cancel].
Proof. reflexivity. Qed.

(** ** Further properties of the adapters *)






Lemma step_subscribed (ser : ServiceError -> jsval) (ev : Event) (st : Inv) :
  subscribed st = true -> subscribed (step ser ev st).1 = true.
Proof.
  unfold subscribed, consumerCancelled.
  destruct_inv st; cbn; intros ?; try discriminate.
  all: destruct_event ev; handler_cases.
Qed.





Lemma subscribeFor_initial (responseStream : bool) (methodName : string)
    (isRequestStream : bool) (args : list jsval) :
  let st0 := (subscribeFor responseStream methodName isRequestStream args).1 in
  subscribed st0 = true /\ released st0 = true
  /\ isStream st0 = responseStream /\ finished st0 = false.
Proof.
  unfold subscribeFor, streamSubscribe, unarySubscribe.
  destruct responseStream; destruct (_ && _); by cbn.
Qed.

Lemma run_invariants (ser : ServiceError -> jsval) (evs : list Event) (st : Inv) :
  (subscribed st = true -> subscribed (run ser evs st).1 = true)
  /\ (released st = true -> released (run ser evs st).1 = true).
Proof.
  revert st. induction evs as [|ev evs IH]; intros st; [done|].
  rewrite run_cons. cbn [fst].
  destruct (IH (step ser ev st).1) as (H1 & H2).
  split; intros H; [apply H1, step_subscribed|apply H2, step_released]; done.
Qed.

Lemma error_delivered (ser : ServiceError -> jsval) (st : Inv)
    (error : ServiceError) :
  subscribed st = true -> closed st = false ->
  emitted (step ser (errorEvent (isStream st) error) st).2
  = [ObsError (ser error)].
Proof.
  unfold subscribed, consumerCancelled, errorEvent.
  destruct_inv st; cbn; intros ? ?; try discriminate.
  all: handler_cases.
Qed.

(** X2: as long as the consumer is subscribed, no error of the call is lost.
    In whatever state a subscription is after any sequence of events, if its
    subscriber is still open then an error reported by the transport (the
    'error' event of a streaming call, the error of the completion callback
    of a unary call), whether it denotes cancellation or not, is delivered to
    the consumer, normalized, as the one event of that step. *)
Theorem error_reaches_subscriber (ser : ServiceError -> jsval)
    (responseStream : bool) (methodName : string) (isRequestStream : bool)
    (args : list jsval) (evs : list Event) (error : ServiceError) :
  let st0 := (subscribeFor responseStream methodName isRequestStream args).1 in
  let st := (run ser evs st0).1 in
  closed st = false ->
  emitted (step ser (errorEvent responseStream error) st).2
  = [ObsError (ser error)].
Proof.
  intros st0 st Hc.
  destruct (subscribeFor_initial responseStream methodName isRequestStream args)
    as (Hs & _ & Hi & _).
  fold st0 in Hs, Hi.
  assert (Hst : isStream st = responseStream).
  { unfold st. by rewrite run_isStream. }
  rewrite <- Hst. apply error_delivered; [|done].
  by apply run_invariants.
Qed.

Lemma error_reaches_subscriber_witness :
  let st := (run messageOnly [CallData (JNum 1)]
               (subscribeFor true "WatchOrders" false []).1).1 in
  closed st = false
  /\ emitted (step messageOnly (errorEvent true errCancelled) st).2
     = [ObsError (messageOnly errCancelled)].
Proof.
  intros st.
  assert (Hc : closed st = false) by reflexivity.
  refine (conj Hc _).
  exact (error_reaches_subscriber messageOnly true "WatchOrders" false []
           [CallData (JNum 1)] errCancelled Hc).
Defined.

(** X3: once the response stream has ended or the consumer has unsubscribed,
    the request stream is no longer forwarded: whatever arrives afterwards,
    nothing is written to the call and the call is not ended. *)
Theorem no_forwarding_after_close (ser : ServiceError -> jsval)
    (responseStream : bool) (methodName : string) (isRequestStream : bool)
    (args : list jsval) (evs evs' : list Event) :
  let st0 := (subscribeFor responseStream methodName isRequestStream args).1 in
  let st := (run ser evs st0).1 in
  closed st = true ->
  upstreamLive st = false
  /\ writes (run ser evs' st).2 = []
  /\ count isEnd (run ser evs' st).2 = 0.
Proof.
  intros st0 st Hc.
  destruct (subscribeFor_initial responseStream methodName isRequestStream args)
    as (_ & Hr & _).
  fold st0 in Hr.
  assert (Hl : upstreamLive st = false).
  { pose proof (proj2 (run_invariants ser evs st0) Hr) as H.
    fold st in H. unfold released in H. rewrite Hc in H. cbn in H.
    by destruct (upstreamLive st). }
  split; [done|]. by apply run_not_live.
Qed.

Lemma no_forwarding_after_close_witness :
  let st := (run messageOnly [Unsubscribe]
               (subscribeFor true "Chat" true [requestSubject]).1).1 in
  closed st = true
  /\ writes (run messageOnly [UpstreamNext (JNum 1); UpstreamComplete] st).2 = [].
Proof.
  intros st.
  assert (Hc : closed st = true) by reflexivity.
  refine (conj Hc _).
  exact (proj1 (proj2 (no_forwarding_after_close messageOnly true "Chat" true
                         [requestSubject] [Unsubscribe]
                         [UpstreamNext (JNum 1); UpstreamComplete] Hc))).
Defined.

Lemma step_finished (ser : ServiceError -> jsval) (ev : Event) (st : Inv) :
  finished st = true ->
  finished (step ser ev st).1 = true /\ count isCancel (step ser ev st).2 = 0.
Proof.
  destruct_inv st; cbn; intros ?; try discriminate.
  all: destruct_event ev; handler_cases.
Qed.

(** X4: a call that the transport has marked finished is never cancelled:
    from a state with [call.finished] set, no sequence of events makes the
    adapter issue [cancel()]. *)
Theorem finished_call_never_cancelled (ser : ServiceError -> jsval)
    (st : Inv) (evs : list Event) :
  finished st = true -> count isCancel (run ser evs st).2 = 0.
Proof.
  revert st. induction evs as [|ev evs IH]; intros st Hf; [done|].
  rewrite run_cons. cbn [fst snd]. rewrite count_app.
  destruct (step_finished ser ev st Hf) as (Hf1 & ->). by rewrite IH.
Qed.

Lemma finished_call_never_cancelled_witness :
  let st := (run messageOnly [CallFinished]
               (subscribeFor true "WatchOrders" false []).1).1 in
  finished st = true
  /\ count isCancel (run messageOnly [CallData (JNum 1); Unsubscribe] st).2 = 0.
Proof.
  intros st.
  assert (Hf : finished st = true) by reflexivity.
  refine (conj Hf _).
  exact (finished_call_never_cancelled messageOnly st
           [CallData (JNum 1); Unsubscribe] Hf).
Defined.

Lemma step_destroy (ser : ServiceError -> jsval) (ev : Event) (st : Inv) :
  cancellationEvent ev = false -> count isDestroy (step ser ev st).2 = 0.
Proof.
  unfold cancellationEvent.
  destruct_inv st; destruct_event ev; handler_cases.
Qed.

(** X5: the adapter destroys a call handle only in answer to an error that
    denotes cancellation: a sequence of events none of which carries such an
    error never leads to [call.destroy()], in any state. *)
Theorem destroy_only_on_cancellation (ser : ServiceError -> jsval)
    (st : Inv) (evs : list Event) :
  forallb (fun ev => negb (cancellationEvent ev)) evs = true ->
  count isDestroy (run ser evs st).2 = 0.
Proof.
  revert st. induction evs as [|ev evs IH]; intros st H; [done|].
  cbn in H. apply andb_prop in H as [H1 H2].
  rewrite run_cons. cbn [fst snd]. rewrite count_app, IH by done.
  rewrite step_destroy; [done|]. by destruct (cancellationEvent ev).
Qed.

Lemma destroy_only_on_cancellation_witness :
  forallb (fun ev => negb (cancellationEvent ev))
          [CallData (JNum 1); CallError errInternal; CallEnd] = true
  /\ count isDestroy
       (run messageOnly [CallData (JNum 1); CallError errInternal; CallEnd]
            (subscribeFor true "WatchOrders" false []).1).2 = 0.
Proof.
  assert (H : forallb (fun ev => negb (cancellationEvent ev))
                [CallData (JNum 1); CallError errInternal; CallEnd] = true)
    by reflexivity.
  refine (conj H _).
  exact (destroy_only_on_cancellation messageOnly _ _ H).
Defined.

Lemma step_no_upstream (ser : ServiceError -> jsval) (ev : Event) (st : Inv) :
  hasUpstream st = false ->
  hasUpstream (step ser ev st).1 = false
  /\ count isEmitError (step ser ev st).2 = 0
  /\ count isUpstreamUnsubscribe (step ser ev st).2 = 0.
Proof.
  destruct_inv st; cbn; intros ?; try discriminate.
  all: destruct_event ev; handler_cases.
Qed.

Lemma run_no_upstream (ser : ServiceError -> jsval) (evs : list Event)
    (st : Inv) :
  hasUpstream st = false ->
  count isEmitError (run ser evs st).2 = 0
  /\ count isUpstreamUnsubscribe (run ser evs st).2 = 0.
Proof.
  revert st. induction evs as [|ev evs IH]; intros st Hu; [done|].
  rewrite run_cons. cbn [fst snd]. rewrite !count_app.
  destruct (step_no_upstream ser ev st Hu) as (Hu1 & -> & ->).
  by destruct (IH _ Hu1) as (-> & ->).
Qed.

(** X6: when the method is not request-streaming, or the first argument has
    no [subscribe] function, the arguments are passed through: the call is
    opened with all of them (followed by the completion callback in the unary
    adapter), no request stream is subscribed to, and nothing that happens
    later makes the adapter write to the call, end it, emit an error on it or
    unsubscribe from a request stream. *)
Theorem plain_arguments_pass_through (ser : ServiceError -> jsval)
    (responseStream : bool) (methodName : string) (isRequestStream : bool)
    (args : list jsval) (evs : list Event) :
  isRequestStream && isUpstreamSubject (arg 0 args) = false ->
  let sub := subscribeFor responseStream methodName isRequestStream args in
  List.filter isOpen sub.2
  = [Open methodName
       (if responseStream then ArgValue <$> args
        else (ArgValue <$> args) ++ [ArgCallback])]
  /\ count isUpstreamSubscribe sub.2 = 0
  /\ writes (run ser evs sub.1).2 = []
  /\ count isEnd (run ser evs sub.1).2 = 0
  /\ count isEmitError (run ser evs sub.1).2 = 0
  /\ count isUpstreamUnsubscribe (run ser evs sub.1).2 = 0.
Proof.
  intros Hn sub.
  assert (H0 : hasUpstream sub.1 = false /\ upstreamLive sub.1 = false).
  { unfold sub, subscribeFor, streamSubscribe, unarySubscribe.
    rewrite Hn. by destruct responseStream. }
  destruct H0 as (Hu & Hl).
  split.
  { unfold sub, subscribeFor, streamSubscribe, unarySubscribe.
    rewrite Hn. by destruct responseStream. }
  split.
  { unfold sub, subscribeFor, streamSubscribe, unarySubscribe.
    rewrite Hn. by destruct responseStream. }
  destruct (run_not_live ser evs _ Hl) as (-> & ->).
  by destruct (run_no_upstream ser evs _ Hu) as (-> & ->).
Qed.

Lemma plain_arguments_pass_through_witness :
  true && isUpstreamSubject (arg 0 [JObj [("id", JNum 7)]; JObj []]) = false
  /\ List.filter isOpen
       (subscribeFor false "Upload" true [JObj [("id", JNum 7)]; JObj []]).2
     = [Open "Upload"
          [ArgValue (JObj [("id", JNum 7)]); ArgValue (JObj []); ArgCallback]].
Proof.
  assert (H : true && isUpstreamSubject (arg 0 [JObj [("id", JNum 7)]; JObj []])
              = false) by reflexivity.
  refine (conj H _).
  exact (proj1 (plain_arguments_pass_through messageOnly false "Upload" true
                  [JObj [("id", JNum 7)]; JObj []] [] H)).
Defined.

Lemma step_release (ser : ServiceError -> jsval) (ev : Event) (st : Inv) :
  count isUpstreamUnsubscribe (step ser ev st).2
  + Nat.b2n (canRelease (step ser ev st).1)
  <= Nat.b2n (canRelease st).
Proof.
  destruct_inv st; destruct_event ev; handler_cases.
  all: vm_compute; lia.
Qed.

Lemma run_release (ser : ServiceError -> jsval) (evs : list Event) (st : Inv) :
  count isUpstreamUnsubscribe (run ser evs st).2
  + Nat.b2n (canRelease (run ser evs st).1)
  <= Nat.b2n (canRelease st).
Proof.
  revert st. induction evs as [|ev evs IH]; intros st; [cbn; lia|].
  rewrite run_cons. cbn [fst snd]. rewrite count_app.
  pose proof (step_release ser ev st). pose proof (IH (step ser ev st).1). lia.
Qed.

(** X7: the upstream subscription is released at most once: over any
    sequence of events, from any state, the adapter calls [unsubscribe()] on
    the request stream at most one time; and a subscription that did so (or
    has no request stream) does not call it again. *)
Theorem upstream_released_at_most_once (ser : ServiceError -> jsval)
    (st : Inv) (evs evs' : list Event) :
  count isUpstreamUnsubscribe (run ser evs st).2 <= 1
  /\ count isUpstreamUnsubscribe (run ser evs st).2
     + count isUpstreamUnsubscribe (run ser evs' (run ser evs st).1).2 <= 1.
Proof.
  pose proof (run_release ser evs st) as H1.
  pose proof (run_release ser evs' (run ser evs st).1) as H2.
  destruct (canRelease st); cbn in H1; split; lia.
Qed.

(** ** Channel options of a client *)

Lemma own_elem (k : string) (props : list (string * jsval)) (v : jsval) :
  own k props = Some v -> (k, v) ∈ props.
Proof.
  induction props as [|[k' v'] props IH]; cbn; [done|].
  destruct (String.eqb k k') eqn:He.
  - apply String.eqb_eq in He as ->. intros [= ->]. apply elem_of_cons. by left.
  - intros H. apply elem_of_cons. right. by apply IH.
Qed.

Lemma keepaliveTarget_elem (k g : string) :
  keepaliveTarget k = Some g <-> (k, g) ∈ keepaliveTranslation.
Proof.
  split.
  - unfold keepaliveTarget, getProp.
    cbn [keepaliveKeys ownProperties prototypeChain inherited].
    destruct (own k _) as [v|] eqn:Hv.
    { apply own_elem in Hv.
      repeat (apply elem_of_cons in Hv as [Hv|Hv]);
        try (by apply elem_of_nil in Hv).
      all: injection Hv as -> ->; intros [= <-].
      all: by apply (bool_decide_unpack _). }
    destruct (own k objectPrototype) as [v|] eqn:Hp.
    { apply own_elem in Hp. unfold objectPrototype in Hp. cbn in Hp.
      repeat (apply elem_of_cons in Hp as [Hp|Hp]);
        try (by apply elem_of_nil in Hp).
      all: injection Hp as -> ->; intros [= <-].
      all: by apply (bool_decide_unpack _). }
    destruct (String.eqb k "__proto__") eqn:He; [|done].
    apply String.eqb_eq in He as ->. intros [= <-].
    by apply (bool_decide_unpack _).
  - unfold keepaliveTranslation. intros H.
    repeat (apply elem_of_cons in H as [H|H]);
      try (by apply elem_of_nil in H).
    all: by injection H as -> ->.
Qed.

Lemma snd_injective (l : list (string * string)) (k k' g : string) :
  NoDup l.*2 -> (k, g) ∈ l -> (k', g) ∈ l -> k = k'.
Proof.
  induction l as [|[k0 g0] l IH]; intros Hnd H1 H2.
  { by apply elem_of_nil in H1. }
  cbn in Hnd. apply NoDup_cons in Hnd as [Hg0 Hnd].
  apply elem_of_cons in H1 as [H1|H1]; apply elem_of_cons in H2 as [H2|H2];
    simplify_eq.
  - done.
  - exfalso. apply Hg0. apply list_elem_of_fmap. by exists (k', g0).
  - exfalso. apply Hg0. apply list_elem_of_fmap. by exists (k, g0).
  - by apply IH.
Qed.

Lemma keepaliveTarget_injective (k k' g : string) :
  keepaliveTarget k = Some g -> keepaliveTarget k' = Some g -> k = k'.
Proof.
  intros H1%keepaliveTarget_elem H2%keepaliveTarget_elem.
  apply (snd_injective keepaliveTranslation k k' g); [|done|done].
  by apply (bool_decide_unpack _).
Qed.

(** The loop of lines 143-151 in terms of [keepaliveTarget]. *)
Lemma keepalive_fold_eq (es : list (string * jsval)) (acc : gmap string jsval) :
  foldl (fun keepaliveOptions '(optionKey, optionValue) =>
           let key := getProp keepaliveKeys optionKey in
           match key with
           | JUndefined => keepaliveOptions
           | _ => <[toPropertyKey key := optionValue]> keepaliveOptions
           end) acc es
  = foldl (fun keepaliveOptions '(optionKey, optionValue) =>
             match keepaliveTarget optionKey with
             | None => keepaliveOptions
             | Some key => <[key := optionValue]> keepaliveOptions
             end) acc es.
Proof.
  revert acc. induction es as [|[k v] es IH]; intros acc; [done|].
  cbn [foldl]. rewrite <- IH. f_equal.
  unfold keepaliveTarget. by destruct (getProp keepaliveKeys k).
Qed.

Lemma keepalive_fold_sound (es : list (string * jsval))
    (acc : gmap string jsval) (g : string) (v : jsval) :
  foldl (fun keepaliveOptions '(optionKey, optionValue) =>
           match keepaliveTarget optionKey with
           | None => keepaliveOptions
           | Some key => <[key := optionValue]> keepaliveOptions
           end) acc es !! g = Some v ->
  acc !! g = Some v
  \/ exists k, (k, v) ∈ es /\ keepaliveTarget k = Some g.
Proof.
  revert acc. induction es as [|[k0 v0] es IH]; intros acc; cbn [foldl];
    [by left|].
  intros H. apply IH in H as [H|(k & Hk & Hg)].
  - destruct (keepaliveTarget k0) as [g0|] eqn:Hg0; [|by left].
    destruct (decide (g0 = g)) as [->|Hne].
    + rewrite lookup_insert_eq in H. injection H as ->.
      right. exists k0. split; [|done]. apply elem_of_cons. by left.
    + rewrite lookup_insert_ne in H by done. by left.
  - right. exists k. split; [|done]. apply elem_of_cons. by right.
Qed.

Lemma keepalive_fold_other (es : list (string * jsval))
    (acc : gmap string jsval) (g : string) :
  (forall k v, (k, v) ∈ es -> keepaliveTarget k <> Some g) ->
  foldl (fun keepaliveOptions '(optionKey, optionValue) =>
           match keepaliveTarget optionKey with
           | None => keepaliveOptions
           | Some key => <[key := optionValue]> keepaliveOptions
           end) acc es !! g = acc !! g.
Proof.
  revert acc. induction es as [|[k0 v0] es IH]; intros acc H; cbn [foldl];
    [done|].
  rewrite IH.
  - destruct (keepaliveTarget k0) as [g0|] eqn:Hg0; [|done].
    rewrite lookup_insert_ne; [done|]. intros ->.
    eapply H; [|done]. apply elem_of_cons. by left.
  - intros k v Hk. apply (H k v). apply elem_of_cons. by right.
Qed.

Lemma keepalive_fold_complete (es : list (string * jsval))
    (acc : gmap string jsval) (k g : string) (v : jsval) :
  NoDup es.*1 -> (k, v) ∈ es -> keepaliveTarget k = Some g ->
  foldl (fun keepaliveOptions '(optionKey, optionValue) =>
           match keepaliveTarget optionKey with
           | None => keepaliveOptions
           | Some key => <[key := optionValue]> keepaliveOptions
           end) acc es !! g = Some v.
Proof.
  revert acc. induction es as [|[k0 v0] es IH]; intros acc Hnd Hin Hg.
  { by apply elem_of_nil in Hin. }
  cbn in Hnd. apply NoDup_cons in Hnd as [Hk0 Hnd].
  apply elem_of_cons in Hin as [[= <- <-]|Hin]; cbn [foldl].
  - rewrite Hg, keepalive_fold_other; [apply lookup_insert_eq|].
    intros k' v' Hin' Hg'.
    assert (k' = k) as -> by (by eapply keepaliveTarget_injective).
    apply Hk0. apply list_elem_of_fmap. by exists (k, v').
  - by apply IH.
Qed.

(** X8: [getKeepaliveOptions] translates the keepalive option through the
    object literal [keepaliveKeys], read as JavaScript reads it.  When the
    option is not an object the result is empty.  Every key of the result
    carries the value of an entry of the option, and is the key that the
    literal gives for the key of that entry: no value is made up.  When the
    option is an object, each of its entries (an object has no duplicate
    keys) for which the literal gives a key appears in the result under that
    key, with its value.  The literal gives a key for exactly nineteen names:
    the gRPC channel key for each of its seven own names, and, because line
    146 reads through [Object.prototype], for each name inherited from there
    ([toString], [constructor], ...) the string that the inherited member
    prints as; the entries under every other name are dropped. *)
Theorem keepalive_options_translation (isObject : jsval -> bool) (p : Proxy) :
  (isObject (keepalive (options p)) = false ->
   getKeepaliveOptions isObject p = ∅)
  /\ (forall g v,
        getKeepaliveOptions isObject p !! g = Some v ->
        exists k, (k, v) ∈ entries (keepalive (options p))
                  /\ keepaliveTarget k = Some g)
  /\ (isObject (keepalive (options p)) = true ->
      NoDup (entries (keepalive (options p))).*1 ->
      forall k v g,
        (k, v) ∈ entries (keepalive (options p)) ->
        keepaliveTarget k = Some g ->
        getKeepaliveOptions isObject p !! g = Some v)
  /\ (forall k g,
        keepaliveTarget k = Some g <-> (k, g) ∈ keepaliveTranslation).
Proof.
  unfold getKeepaliveOptions. rewrite keepalive_fold_eq.
  split; [by intros ->|]. split; [|split].
  - intros g v. destruct (isObject _); cbn [negb]; [|by rewrite lookup_empty].
    intros H. destruct (keepalive_fold_sound _ _ _ _ H) as [H'|H']; [|done].
    by rewrite lookup_empty in H'.
  - intros -> Hnd k v g Hin Hg. cbn [negb].
    by apply (keepalive_fold_complete _ _ k).
  - apply keepaliveTarget_elem.
Qed.

Lemma keepalive_options_translation_witness :
  let p := mkProxy (mkOptions None JUndefined JUndefined JUndefined
                      (JObj [("keepaliveTimeMs", JNum 10000);
                             ("unknownOption", JNum 1);
                             ("toString", JNum 5)])
                      None)
                   "localhost:5000" [] ∅ [] ∅ in
  isObjectValue (keepalive (options p)) = true
  /\ NoDup (entries (keepalive (options p))).*1
  /\ getKeepaliveOptions isObjectValue p !! "grpc.keepalive_time_ms"
     = Some (JNum 10000)
  /\ getKeepaliveOptions isObjectValue p
     !! "function toString() { [native code] }"
     = Some (JNum 5).
Proof.
  intros p.
  assert (Ho : isObjectValue (keepalive (options p)) = true) by reflexivity.
  assert (Hnd : NoDup (entries (keepalive (options p))).*1).
  { by apply (bool_decide_unpack _). }
  refine (conj Ho (conj Hnd (conj _ _))).
  - refine (proj1 (proj2 (proj2 (keepalive_options_translation isObjectValue p)))
              Ho Hnd "keepaliveTimeMs" (JNum 10000) "grpc.keepalive_time_ms" _ _).
    + cbn. apply elem_of_cons. by left.
    + reflexivity.
  - refine (proj1 (proj2 (proj2 (keepalive_options_translation isObjectValue p)))
              Ho Hnd "toString" (JNum 5)
              "function toString() { [native code] }" _ _).
    + cbn. do 2 (apply elem_of_cons; right). apply elem_of_cons. by left.
    + reflexivity.
Defined.

Lemma keepalive_has_no_size_key (isObject : jsval -> bool) (p : Proxy)
    (key : string) :
  key ∈ sizeKeys -> getKeepaliveOptions isObject p !! key = None.
Proof.
  intros Hk.
  destruct (getKeepaliveOptions isObject p !! key) as [v|] eqn:Hv; [|done].
  unfold getKeepaliveOptions in Hv. rewrite keepalive_fold_eq in Hv.
  destruct (negb _); [by rewrite lookup_empty in Hv|].
  destruct (keepalive_fold_sound _ _ _ _ Hv)
    as [Hv'|(k & _ & Hg%keepaliveTarget_elem)];
    [by rewrite lookup_empty in Hv'|].
  exfalso. unfold sizeKeys, keepaliveTranslation in *.
  repeat (apply elem_of_cons in Hk as [->|Hk]);
    try (by apply elem_of_nil in Hk).
  all: repeat (apply elem_of_cons in Hg as [Hg|Hg]);
    try (by apply elem_of_nil in Hg).
  all: discriminate.
Qed.

(** X9: the options of a client that [createClientByServiceName] builds.
    Each message-size option is applied only when it is truthy: a limit of 0
    or an absent limit leaves the key as [channelOptions] has it.  The
    keepalive options override [channelOptions] on a common key.  The
    credentials default to the insecure ones, and the client is built for the
    url of the proxy. *)
Theorem client_channel_options (isObject : jsval -> bool) (name : string)
    (p : Proxy) :
  is_Some (getClient name p) ->
  exists c,
    (createClientByServiceName isObject name p).1 = Ok c
    /\ client_options c !! "grpc.max_send_message_length"
       = (if truthy (maxSendMessageLength (options p))
          then Some (maxSendMessageLength (options p))
          else default ∅ (channelOptions (options p))
               !! "grpc.max_send_message_length")
    /\ client_options c !! "grpc.max_receive_message_length"
       = (if truthy (maxReceiveMessageLength (options p))
          then Some (maxReceiveMessageLength (options p))
          else default ∅ (channelOptions (options p))
               !! "grpc.max_receive_message_length")
    /\ client_options c !! "grpc.max_metadata_size"
       = (if truthy (maxMetadataSize (options p))
          then Some (maxMetadataSize (options p))
          else default ∅ (channelOptions (options p))
               !! "grpc.max_metadata_size")
    /\ (forall g v, getKeepaliveOptions isObject p !! g = Some v ->
                    client_options c !! g = Some v)
    /\ client_credentials c = default Insecure (credentials (options p))
    /\ client_url c = url p.
Proof.
  intros [clientRef Hg]. unfold createClientByServiceName. rewrite Hg.
  eexists. split; [reflexivity|]. cbn [client_options client_credentials client_url].
  repeat split.
  1-3: rewrite lookup_union_r
    by (apply keepalive_has_no_size_key; unfold sizeKeys; set_solver).
  1-3: unfold setIfTruthy; repeat destruct (truthy _); by simplify_map_eq.
  intros g v Hv. by apply lookup_union_Some_l.
Qed.

Lemma client_channel_options_witness :
  let p := mkProxy (mkOptions (Some {[ "grpc.max_send_message_length" := JNum 4096 ]})
                      (JNum 0) JUndefined JUndefined JUndefined None)
                   "localhost:5000" [ {[ "OrderService" := orderMethods ]} ]
                   ∅ [] ∅ in
  is_Some (getClient "OrderService" p)
  /\ exists c,
       (createClientByServiceName isObjectValue "OrderService" p).1 = Ok c
       /\ client_options c !! "grpc.max_send_message_length" = Some (JNum 4096).
Proof.
  intros p.
  assert (Hg : is_Some (getClient "OrderService" p)) by (eexists; reflexivity).
  refine (conj Hg _).
  destruct (client_channel_options isObjectValue "OrderService" p Hg)
    as (c & Hc & Hs & _).
  exists c. split; [exact Hc|]. rewrite Hs. reflexivity.
Defined.

Lemma size_options_idempotent (v1 v2 v3 : jsval) (m : gmap string jsval) :
  let f := fun m =>
    setIfTruthy "grpc.max_metadata_size" v3
      (setIfTruthy "grpc.max_receive_message_length" v2
         (setIfTruthy "grpc.max_send_message_length" v1 m)) in
  f (f m) = f m.
Proof.
  cbn. unfold setIfTruthy.
  destruct (truthy v1), (truthy v2), (truthy v3); try done.
  all: apply map_eq; intros i.
  all: destruct (decide (i = "grpc.max_metadata_size")) as [->|];
    [by simplify_map_eq|].
  all: destruct (decide (i = "grpc.max_receive_message_length")) as [->|];
    [by simplify_map_eq|].
  all: destruct (decide (i = "grpc.max_send_message_length")) as [->|];
    by simplify_map_eq.
Qed.

Lemma createClientByServiceName_eq (isObject : jsval -> bool) (name : string)
    (p : Proxy) (clientRef : gmap string (gmap string MethodDescriptor)) :
  getClient name p = Some clientRef ->
  createClientByServiceName isObject name p
  = (let o := options p in
     let channelOptions' :=
       setIfTruthy "grpc.max_metadata_size" (maxMetadataSize o)
         (setIfTruthy "grpc.max_receive_message_length"
            (maxReceiveMessageLength o)
            (setIfTruthy "grpc.max_send_message_length"
               (maxSendMessageLength o) (default ∅ (channelOptions o)))) in
     let grpcClient :=
       mkClient (length (constructed p)) name (url p)
                (default Insecure (credentials o))
                (getKeepaliveOptions isObject p ∪ channelOptions')
                (default ∅ (clientRef !! name)) in
     (Ok grpcClient,
      mkProxy (mkOptions (match channelOptions o with
                          | Some _ => Some channelOptions'
                          | None => None
                          end)
                 (maxSendMessageLength o) (maxReceiveMessageLength o)
                 (maxMetadataSize o) (keepalive o) (credentials o))
              (url p) (grpcClients p) (<[name := grpcClient]> (clients p))
              (constructed p ++ [grpcClient]) (closedClients p))).
Proof. intros Hg. unfold createClientByServiceName. by rewrite Hg. Qed.

(** X10: the write-through to [this.options.channelOptions] does not change
    what later clients are built with.  After a client has been built, a
    client built for any service gets the same options, credentials, url and
    methods as it would have got before, under the next id; and building it
    leaves the options of the proxy as the first build left them. *)
Theorem write_through_is_stable (isObject : jsval -> bool)
    (name name' : string) (p : Proxy) (c : GrpcClient) :
  is_Some (getClient name p) ->
  (createClientByServiceName isObject name' p).1 = Ok c ->
  let p' := (createClientByServiceName isObject name p).2 in
  exists c',
    (createClientByServiceName isObject name' p').1 = Ok c'
    /\ client_options c' = client_options c
    /\ client_credentials c' = client_credentials c
    /\ client_url c' = client_url c
    /\ client_methods c' = client_methods c
    /\ client_id c' = S (client_id c)
    /\ options (createClientByServiceName isObject name' p').2 = options p'.
Proof.
  intros [clientRef Hg] Hc p'.
  destruct (getClient name' p) as [clientRef'|] eqn:Hg'.
  2: { unfold createClientByServiceName in Hc. by rewrite Hg' in Hc. }
  rewrite (createClientByServiceName_eq _ _ _ _ Hg') in Hc.
  cbn [fst] in Hc. injection Hc as <-.
  subst p'. rewrite (createClientByServiceName_eq _ _ _ _ Hg). cbn [snd].
  match goal with |- context [createClientByServiceName _ _ ?q] =>
    assert (Hq : getClient name' q = Some clientRef') by exact Hg';
    rewrite (createClientByServiceName_eq _ _ _ _ Hq)
  end.
  eexists. split; [reflexivity|].
  unfold getKeepaliveOptions.
  cbn [fst snd client_options client_credentials client_url client_methods
       client_id options channelOptions maxSendMessageLength
       maxReceiveMessageLength maxMetadataSize keepalive credentials url
       constructed].
  repeat split.
  - destruct (channelOptions (options p)); cbn [default]; [|done].
    f_equal. apply size_options_idempotent.
  - rewrite length_app. cbn. lia.
  - destruct (channelOptions (options p)); cbn [default]; [|done].
    do 2 f_equal. apply size_options_idempotent.
Qed.

Lemma write_through_is_stable_witness :
  let p := mkProxy (mkOptions (Some ∅) (JNum 4096) JUndefined JUndefined
                      JUndefined None)
                   "localhost:5000" [ {[ "OrderService" := orderMethods ]} ]
                   ∅ [] ∅ in
  let c := mkClient 0 "OrderService" "localhost:5000" Insecure
             {[ "grpc.max_send_message_length" := JNum 4096 ]} orderMethods in
  is_Some (getClient "OrderService" p)
  /\ (createClientByServiceName isObjectValue "OrderService" p).1 = Ok c
  /\ exists c',
       (createClientByServiceName isObjectValue "OrderService"
          (createClientByServiceName isObjectValue "OrderService" p).2).1 = Ok c'
       /\ client_options c' = client_options c.
Proof.
  intros p c.
  assert (Hg : is_Some (getClient "OrderService" p)) by (eexists; reflexivity).
  assert (Hc : (createClientByServiceName isObjectValue "OrderService" p).1 = Ok c).
  { by vm_compute. }
  refine (conj Hg (conj Hc _)).
  destruct (write_through_is_stable isObjectValue "OrderService" "OrderService"
              p c Hg Hc) as (c' & Hc' & Ho & _).
  exists c'. split; [exact Hc'|exact Ho].
Defined.

(** ** Resolving a service and closing the proxy *)

Lemma find_first {A : Type} (P : A -> Prop) `{forall x, Decision (P x)}
    (l : list A) (x : A) :
  head (filter P l) = Some x ->
  exists i, l !! i = Some x /\ P x
            /\ forall j y, j < i -> l !! j = Some y -> ~ P y.
Proof.
  induction l as [|a l IH]; [done|].
  destruct (decide (P a)) as [Hp|Hp].
  - rewrite filter_cons_True by done. intros [= ->].
    exists 0. split; [done|]. split; [done|]. intros j y Hj. lia.
  - rewrite filter_cons_False by done. intros Hx.
    destruct (IH Hx) as (i & Hi & Hpx & Hfirst).
    exists (S i). split; [done|]. split; [done|].
    intros [|j] y Hj Hy; [by injection Hy as <-|].
    apply (Hfirst j); [lia|done].
Qed.

Lemma getClient_None (name : string) (p : Proxy) :
  getClient name p = None
  <-> forall pkg, pkg ∈ grpcClients p -> pkg !! name = None.
Proof.
  unfold getClient. rewrite head_None. split.
  - intros Hf pkg Hin.
    destruct (pkg !! name) eqn:Hn; [|done].
    exfalso. eapply (filter_nil_not_elem_of _ _ pkg Hf); [|done].
    cbn. by rewrite Hn.
  - intros Hall. induction (grpcClients p) as [|a l IH]; [done|].
    rewrite filter_cons_False.
    + apply IH. intros pkg Hin. apply Hall. by apply elem_of_cons; right.
    + rewrite (Hall a) by (apply elem_of_cons; by left). by intros [? ?].
Qed.

(** X11: how a service name resolves.  A name that no loaded package defines
    and that has no cached client makes [createClientByServiceName],
    [getClientByServiceName] and [getService] throw
    [InvalidGrpcServiceException] for that name, and nothing changes: no
    client is built, nothing is cached, no descriptor is read.  A name that
    some package defines gets a client with the methods of the first loaded
    package that defines it. *)
Theorem service_resolution (isObject : jsval -> bool) (name : string)
    (p : Proxy) (w : World) :
  clients p !! name = None ->
  ((forall pkg, pkg ∈ grpcClients p -> pkg !! name = None) ->
   createClientByServiceName isObject name p
   = (Throw (InvalidGrpcServiceException name), p)
   /\ getClientByServiceName isObject name p
      = (Throw (InvalidGrpcServiceException name), p)
   /\ getService isObject name p w
      = (Throw (InvalidGrpcServiceException name), p, w))
  /\ ((exists pkg, pkg ∈ grpcClients p /\ is_Some (pkg !! name)) ->
      exists c i pkg methods,
        (getClientByServiceName isObject name p).1 = Ok c
        /\ grpcClients p !! i = Some pkg
        /\ pkg !! name = Some methods
        /\ client_methods c = methods
        /\ forall j pkg', j < i -> grpcClients p !! j = Some pkg' ->
                          pkg' !! name = None).
Proof.
  intros Hn. split.
  - intros Hall%getClient_None.
    unfold getService, getClientByServiceName, createClientByServiceName.
    by rewrite Hn, Hall.
  - intros (pkg0 & Hin & Hdef).
    destruct (getClient name p) as [pkg|] eqn:Hg.
    2: { rewrite getClient_None in Hg. rewrite (Hg pkg0 Hin) in Hdef.
         by destruct Hdef. }
    pose proof Hg as Hg0. unfold getClient in Hg0.
    apply find_first in Hg0 as (i & Hi & [methods Hm] & Hfirst).
    unfold getClientByServiceName. rewrite Hn.
    rewrite (createClientByServiceName_eq _ _ _ _ Hg). cbn [fst].
    eexists _, i, pkg, methods. split; [reflexivity|].
    split; [done|]. split; [done|]. split; [by cbn; rewrite Hm|].
    intros j pkg' Hj Hj'.
    destruct (pkg' !! name) eqn:Hd; [|done].
    exfalso. apply (Hfirst j pkg' Hj Hj'). by rewrite Hd.
Qed.

Lemma service_resolution_witness :
  clients orderProxy !! "HeroService" = None
  /\ (forall pkg, pkg ∈ grpcClients orderProxy -> pkg !! "HeroService" = None)
  /\ getClientByServiceName isObjectValue "HeroService" orderProxy
     = (Throw (InvalidGrpcServiceException "HeroService"), orderProxy).
Proof.
  assert (Hn : clients orderProxy !! "HeroService" = None) by reflexivity.
  assert (Hall : forall pkg, pkg ∈ grpcClients orderProxy ->
                             pkg !! "HeroService" = None).
  { intros pkg Hin. cbn in Hin. apply list_elem_of_singleton in Hin as ->.
    reflexivity. }
  refine (conj Hn (conj Hall _)).
  exact (proj1 (proj2 (proj1 (service_resolution isObjectValue "HeroService"
                                orderProxy emptyWorld Hn) Hall))).
Defined.

Lemma cachedIds_elem (p : Proxy) (id : nat) :
  id ∈ cachedIds p <-> exists n c, clients p !! n = Some c /\ client_id c = id.
Proof.
  unfold cachedIds. rewrite elem_of_list_to_set, list_elem_of_fmap. split.
  - intros (c & -> & Hc). apply list_elem_of_fmap in Hc as ([n c'] & -> & Hin).
    exists n, c'. split; [|done]. by apply elem_of_map_to_list.
  - intros (n & c & Hc & <-). exists c. split; [done|].
    apply list_elem_of_fmap. exists (n, c). split; [done|].
    by apply elem_of_map_to_list.
Qed.

(** X12: [close()] closes every client of the registry and empties it, keeps
    what was closed before, and is idempotent.  It also forgets the loaded
    packages: after [close()] every service name fails to resolve, so the
    proxy builds no client any more. *)
Theorem close_releases_registry (isObject : jsval -> bool) (name : string)
    (p : Proxy) :
  (forall n c, clients p !! n = Some c ->
               client_id c ∈ closedClients (close p))
  /\ closedClients p ⊆ closedClients (close p)
  /\ (forall id, id ∈ closedClients (close p) ->
                 id ∈ closedClients p \/ id ∈ cachedIds p)
  /\ close (close p) = close p
  /\ getClientByServiceName isObject name (close p)
     = (Throw (InvalidGrpcServiceException name), close p)
  /\ constructed (close p) = constructed p.
Proof.
  split; [|split; [|split; [|split; [|split]]]].
  - intros n c Hc. cbn. apply elem_of_union. right.
    apply cachedIds_elem. by exists n, c.
  - cbn. apply union_subseteq_l.
  - intros id. cbn. rewrite elem_of_union. by unfold cachedIds.
  - unfold close. cbn. rewrite map_to_list_empty. cbn.
    f_equal. cbn. apply (right_id_L ∅ (∪)).
  - done.
  - done.
Qed.

(** X13: [createClientByServiceName] does not memoize.  For a service that a
    package defines it builds a client, a new object, and puts it in the
    registry also when the registry already holds a client for the name.  The
    client it replaces is then out of the registry: a later [close()] closes
    the new client and not the replaced one. *)
Theorem createClientByServiceName_replaces (isObject : jsval -> bool)
    (name : string) (p : Proxy) (c0 : GrpcClient) :
  is_Some (getClient name p) ->
  clients p !! name = Some c0 ->
  client_id c0 < length (constructed p) ->
  client_id c0 ∉ closedClients p ->
  (forall n c', clients p !! n = Some c' -> client_id c' = client_id c0 ->
                n = name) ->
  let p' := (createClientByServiceName isObject name p).2 in
  exists c,
    (createClientByServiceName isObject name p).1 = Ok c
    /\ client_id c = length (constructed p)
    /\ c <> c0
    /\ clients p' !! name = Some c
    /\ constructed p' = constructed p ++ [c]
    /\ client_id c ∈ closedClients (close p')
    /\ client_id c0 ∉ closedClients (close p').
Proof.
  intros [clientRef Hg] Hc0 Hlt Hnc Huniq p'. subst p'.
  rewrite (createClientByServiceName_eq _ _ _ _ Hg). cbn [fst snd].
  eexists. split; [reflexivity|]. cbn [client_id clients constructed].
  split; [done|]. split; [intros <-; cbn in Hlt; lia|].
  split; [apply lookup_insert_eq|]. split; [done|].
  unfold close. cbn [closedClients clients].
  split.
  - apply elem_of_union. right.
    rewrite elem_of_list_to_set, list_elem_of_fmap.
    eexists. split; [|apply list_elem_of_fmap; eexists (name, _);
                      split; [reflexivity|];
                      apply elem_of_map_to_list, lookup_insert_eq].
    done.
  - rewrite elem_of_union. intros [H|H]; [done|].
    rewrite elem_of_list_to_set, list_elem_of_fmap in H.
    destruct H as (c & Hid & Hin).
    apply list_elem_of_fmap in Hin as ([n c'] & -> & Hin).
    apply elem_of_map_to_list in Hin. cbn in Hid.
    destruct (decide (n = name)) as [->|Hne].
    + rewrite lookup_insert_eq in Hin. injection Hin as <-. cbn in Hid. lia.
    + rewrite lookup_insert_ne in Hin by done.
      apply Hne. by apply (Huniq n c').
Qed.

Lemma createClientByServiceName_replaces_witness :
  let p := (getClientByServiceName isObjectValue "OrderService" orderProxy).2 in
  let c0 := mkClient 0 "OrderService" "localhost:5000" Insecure ∅ orderMethods in
  is_Some (getClient "OrderService" p)
  /\ clients p !! "OrderService" = Some c0
  /\ exists c,
       (createClientByServiceName isObjectValue "OrderService" p).1 = Ok c
       /\ client_id c = 1
       /\ client_id c0 ∉
          closedClients
            (close (createClientByServiceName isObjectValue "OrderService" p).2).
Proof.
  intros p c0.
  assert (Hg : is_Some (getClient "OrderService" p)) by (eexists; reflexivity).
  assert (Hc0 : clients p !! "OrderService" = Some c0) by by vm_compute.
  assert (Hlt : client_id c0 < length (constructed p)) by (vm_compute; lia).
  assert (Hnc : client_id c0 ∉ closedClients p) by (cbn; apply not_elem_of_empty).
  assert (Hu : forall n c', clients p !! n = Some c' ->
                            client_id c' = client_id c0 -> n = "OrderService").
  { intros n c' Hn _.
    assert (Hp : clients p = {[ "OrderService" := c0 ]}) by by vm_compute.
    rewrite Hp in Hn. by apply lookup_singleton_Some in Hn as [-> _]. }
  refine (conj Hg (conj Hc0 _)).
  destruct (createClientByServiceName_replaces isObjectValue "OrderService" p c0
              Hg Hc0 Hlt Hnc Hu) as (c & Hc & Hid & _ & _ & _ & _ & Hleak).
  exists c. split; [exact Hc|]. split; [exact Hid|exact Hleak].
Defined.

(** ** Service objects *)

Lemma createServiceMethods_spec (c : GrpcClient) (ms : list string)
    (svc0 : gmap string ServiceMethod) (w : World) :
  (forall m, m ∈ ms -> is_Some (client_methods c !! m)) ->
  exists svc w',
    createServiceMethods c ms svc0 w = (Ok svc, w')
    /\ invocations w' = invocations w
    /\ transportActions (wtrace w') = transportActions (wtrace w)
    /\ forall k, svc !! k = if decide (k ∈ ms)
                            then serviceMethodFor c k <$> client_methods c !! k
                            else svc0 !! k.
Proof.
  revert svc0 w. induction ms as [|m ms IH]; intros svc0 w Hall.
  { exists svc0, w. split; [done|]. split; [done|]. split; [done|].
    intros k. destruct (decide (k ∈ [])) as [H%elem_of_nil|]; done. }
  destruct (Hall m) as [d Hd]; [apply elem_of_cons; by left|].
  cbn [createServiceMethods]. unfold createServiceMethod. rewrite Hd.
  destruct (IH (<[m := (if responseStream d
                        then createStreamServiceMethod c m
                        else createUnaryServiceMethod c m)]> svc0)
               (logW (DescriptorRead m "responseStream") w))
    as (svc & w' & -> & Hi & Ht & Hk).
  { intros k Hin. apply Hall, elem_of_cons. by right. }
  exists svc, w'. split; [done|]. split; [done|]. split.
  { rewrite Ht. cbn. rewrite transportActions_app. cbn. by rewrite app_nil_r. }
  intros k. rewrite Hk.
  destruct (decide (k ∈ ms)) as [Hin|Hnin].
  - rewrite decide_True; [done|]. apply elem_of_cons. by right.
  - destruct (decide (k = m)) as [->|Hne].
    + rewrite decide_True by (apply elem_of_cons; by left).
      by rewrite lookup_insert_eq, Hd.
    + rewrite lookup_insert_ne by done.
      rewrite decide_False; [done|]. intros [?|?]%elem_of_cons; done.
Qed.

(** X14: [getService] for a service that a loaded package defines.  It
    returns an object with one service method for each method of the service
    and no other: the one [createServiceMethod] selects for the cached
    client.  Building the service opens no call and performs no action on
    a call handle.  A second [getService] for the name returns the same
    service methods over the same client and leaves the proxy as it is. *)
Theorem getService_builds_service (isObject : jsval -> bool) (name : string)
    (p : Proxy) (w w2 : World)
    (pkg : gmap string (gmap string MethodDescriptor))
    (methods : gmap string MethodDescriptor) :
  clients p !! name = None ->
  getClient name p = Some pkg ->
  pkg !! name = Some methods ->
  let p' := (getClientByServiceName isObject name p).2 in
  exists c svc w' w2',
    (getClientByServiceName isObject name p).1 = Ok c
    /\ getService isObject name p w = (Ok svc, p', w')
    /\ (forall m, svc !! m = serviceMethodFor c m <$> methods !! m)
    /\ invocations w' = invocations w
    /\ transportActions (wtrace w') = transportActions (wtrace w)
    /\ getService isObject name p' w2 = (Ok svc, p', w2').
Proof.
  intros Hn Hg Hm p'. subst p'.
  unfold getService, getClientByServiceName. rewrite Hn.
  rewrite (createClientByServiceName_eq _ _ _ _ Hg). cbn [fst snd clients].
  rewrite lookup_insert_eq.
  match goal with |- context [getClient name ?q] =>
    change (getClient name q) with (getClient name p)
  end.
  rewrite Hg, Hm. cbn [default from_option id].
  set (c := mkClient _ _ _ _ _ _).
  assert (Hall : forall m, m ∈ (map_to_list methods).*1 ->
                           is_Some (client_methods c !! m)).
  { intros m Hin. apply list_elem_of_fmap in Hin as ([m' d] & -> & Hin).
    apply elem_of_map_to_list in Hin. cbn. by rewrite Hin. }
  assert (Hkeys : forall (svc : gmap string ServiceMethod),
            (forall k, svc !! k = if decide (k ∈ (map_to_list methods).*1)
                                  then serviceMethodFor c k <$> client_methods c !! k
                                  else (∅ : gmap string ServiceMethod) !! k) ->
            forall k, svc !! k = serviceMethodFor c k <$> methods !! k).
  { intros svc Hk k. rewrite Hk. destruct (decide _) as [|Hnin]; [done|].
    rewrite lookup_empty. destruct (methods !! k) as [d|] eqn:Hd; [|done].
    exfalso. apply Hnin. apply list_elem_of_fmap. exists (k, d).
    split; [done|]. by apply elem_of_map_to_list. }
  destruct (createServiceMethods_spec c _ ∅ w Hall)
    as (svc & w' & He & Hi & Ht & Hk).
  destruct (createServiceMethods_spec c _ ∅ w2 Hall)
    as (svc2 & w2' & He2 & _ & _ & Hk2).
  exists c, svc, w', w2'. rewrite He, He2.
  split; [done|]. split; [done|]. split; [by apply Hkeys|].
  split; [done|]. split; [done|].
  do 2 f_equal. f_equal. apply map_eq. intros k.
  by rewrite (Hkeys _ Hk), (Hkeys _ Hk2).
Qed.

Lemma getService_builds_service_witness :
  clients orderProxy !! "OrderService" = None
  /\ getClient "OrderService" orderProxy = Some {[ "OrderService" := orderMethods ]}
  /\ exists c svc w',
       getService isObjectValue "OrderService" orderProxy emptyWorld
       = (Ok svc, (getClientByServiceName isObjectValue "OrderService"
                     orderProxy).2, w')
       /\ svc !! "WatchOrders" = Some (createStreamServiceMethod c "WatchOrders")
       /\ svc !! "Nope" = None
       /\ invocations w' = [].
Proof.
  assert (Hn : clients orderProxy !! "OrderService" = None) by reflexivity.
  assert (Hg : getClient "OrderService" orderProxy
               = Some {[ "OrderService" := orderMethods ]}) by reflexivity.
  assert (Hm : ({[ "OrderService" := orderMethods ]}
                : gmap string (gmap string MethodDescriptor)) !! "OrderService"
               = Some orderMethods) by reflexivity.
  refine (conj Hn (conj Hg _)).
  destruct (getService_builds_service isObjectValue "OrderService" orderProxy
              emptyWorld emptyWorld _ _ Hn Hg Hm)
    as (c & svc & w' & _ & _ & Hs & Hk & Hi & _).
  exists c, svc, w'. split; [exact Hs|].
  split; [by rewrite Hk|]. split; [by rewrite Hk|exact Hi].
Defined.

(** ** Package lookup *)

Lemma split_nonempty (sep : Ascii.ascii) (s : string) :
  exists segment segments, split sep s = segment :: segments.
Proof.
  destruct s as [|c s]; cbn [split]; [by eexists _, _|].
  destruct (Ascii.eqb c sep); [by eexists _, _|].
  destruct (split sep s); by eexists _, _.
Qed.

Lemma split_app (sep : Ascii.ascii) (a b : string) :
  split sep (a +:+ String sep b) = split sep a ++ split sep b.
Proof.
  induction a as [|c a IH].
  - change (split sep (String sep b) = [EmptyString] ++ split sep b).
    cbn [split]. by rewrite Ascii.eqb_refl.
  - change (String c a +:+ String sep b) with (String c (a +:+ String sep b)).
    cbn [split]. destruct (Ascii.eqb c sep); [by rewrite IH|].
    rewrite IH. by destruct (split_nonempty sep a) as (h & t & ->).
Qed.

Lemma walk_app (names1 names2 : list string) (pkg : jsval) :
  walk (names1 ++ names2) pkg
  = match walk names1 pkg with
    | Ok pkg' => walk names2 pkg'
    | Throw e => Throw e
    end.
Proof.
  revert pkg. induction names1 as [|n names1 IH]; intros pkg; [done|].
  cbn. destruct (getMember pkg n); [apply IH|done].
Qed.

Lemma append_nonempty (a b : string) : a <> EmptyString -> a +:+ b <> EmptyString.
Proof. by destruct a. Qed.

(** X15: [lookupPackage] walks a dotted package name, reading one member for
    each segment.  The empty name is the root.  For non-empty [a] and [b],
    looking up [a.b] is looking up [b] in what [a] resolves to, with the error
    of [a] if that lookup throws; so a name that goes on below a package that
    resolves to [undefined] or to [null] throws the [TypeError] of reading
    its next segment.  A name of one segment is one member read of the root.
    In a plain object that is the listed property of that name; when there is
    none, it is the member that [Object.prototype] has under that name
    ([constructor], [toString], ...), and [undefined] only for a name that
    [Object.prototype] does not have either. *)
Theorem lookupPackage_composes (root : jsval) (a b : string)
    (props : list (string * jsval)) :
  lookupPackage root EmptyString = Ok root
  /\ (a <> EmptyString -> b <> EmptyString ->
      lookupPackage root (a +:+ String dot b)
      = match lookupPackage root a with
        | Ok pkg => lookupPackage pkg b
        | Throw e => Throw e
        end
      /\ (lookupPackage root a = Ok JUndefined ->
          exists segment,
            head (split dot b) = Some segment
            /\ lookupPackage root (a +:+ String dot b)
               = Throw (undefinedProperty segment))
      /\ (lookupPackage root a = Ok JNull ->
          exists segment,
            head (split dot b) = Some segment
            /\ lookupPackage root (a +:+ String dot b)
               = Throw (nullProperty segment)))
  /\ (a <> EmptyString -> split dot a = [a] ->
      lookupPackage root a = getMember root a
      /\ (forall v, own a props = Some v -> lookupPackage (JObj props) a = Ok v)
      /\ (forall v, own a props = None -> own a objectPrototype = Some v ->
                    lookupPackage (JObj props) a = Ok v)
      /\ (own a props = None -> own a objectPrototype = None ->
          a <> "__proto__" -> lookupPackage (JObj props) a = Ok JUndefined)).
Proof.
  split; [done|]. split.
  - intros Ha Hb.
    assert (Hc : lookupPackage root (a +:+ String dot b)
                 = match lookupPackage root a with
                   | Ok pkg => lookupPackage pkg b
                   | Throw e => Throw e
                   end).
    { unfold lookupPackage.
      apply (append_nonempty a (String dot b)) in Ha as Hab.
      apply String.eqb_neq in Ha, Hb, Hab. rewrite Ha, Hb, Hab. cbn [negb].
      by rewrite split_app, walk_app. }
    destruct (split_nonempty dot b) as (segment & segments & Hs).
    apply String.eqb_neq in Hb.
    split; [done|].
    split; intros Hu; rewrite Hc, Hu; exists segment; unfold lookupPackage;
      by rewrite Hb, Hs.
  - intros Ha Hs.
    assert (Hone : forall pkg, lookupPackage pkg a = getMember pkg a).
    { intros pkg. unfold lookupPackage. apply String.eqb_neq in Ha.
      rewrite Ha, Hs. cbn [negb walk]. by destruct (getMember pkg a). }
    split; [apply Hone|].
    rewrite Hone. unfold getMember, getProp.
    cbn [ownProperties prototypeChain inherited].
    split; [by intros v ->|]. split; [by intros v -> ->|].
    intros -> -> Hp. apply String.eqb_neq in Hp. by rewrite Hp.
Qed.

Lemma lookupPackage_composes_witness :
  let root := JObj [("hero", JObj [("v1", JObj [("HeroService", JFun "HeroService")])])] in
  "hero" <> EmptyString /\ "v1" <> EmptyString
  /\ lookupPackage root ("hero" +:+ String dot "v1")
     = Ok (JObj [("HeroService", JFun "HeroService")]).
Proof.
  intros root.
  assert (Ha : "hero" <> EmptyString) by discriminate.
  assert (Hb : "v1" <> EmptyString) by discriminate.
  refine (conj Ha (conj Hb _)).
  rewrite (proj1 (proj1 (proj2 (lookupPackage_composes root "hero" "v1" []))
                    Ha Hb)).
  reflexivity.
Defined.

(** Names that a package definition does not list and that resolve all the
    same: members of [Object.prototype], and the name of a function that is
    found that way. *)
Example lookupPackage_inherited :
  lookupPackage (JObj []) "constructor" = Ok (JFun "Object")
  /\ lookupPackage (JObj []) ("toString" +:+ String dot "name")
     = Ok (JStr "toString")
  /\ lookupPackage (JObj []) "missing" = Ok JUndefined
  /\ lookupPackage (JObj [("hero", JNull)]) ("hero" +:+ String dot "v1")
     = Throw (nullProperty "v1").
Proof. by vm_compute. Qed.

(** ** Loading the packages *)

Lemma collectPackages_spec (grpcContext : jsval) (names : list string)
    (acc : list jsval) :
  match collectPackages grpcContext names acc with
  | (Packages grpcPackages, logged) =>
      logged = []
      /\ exists new, grpcPackages = acc ++ new
           /\ Forall2 (fun name pkg => lookupPackage grpcContext name = Ok pkg
                                       /\ truthy pkg = true) names new
  | (InvalidGrpcPackageException name, logged) =>
      logged = [name]
      /\ exists i pkg, names !! i = Some name
           /\ lookupPackage grpcContext name = Ok pkg /\ truthy pkg = false
           /\ forall j name', j < i -> names !! j = Some name' ->
                exists pkg', lookupPackage grpcContext name' = Ok pkg'
                             /\ truthy pkg' = true
  | (LookupThrew e, logged) =>
      logged = []
      /\ exists i name, names !! i = Some name
           /\ lookupPackage grpcContext name = Throw e
           /\ forall j name', j < i -> names !! j = Some name' ->
                exists pkg', lookupPackage grpcContext name' = Ok pkg'
                             /\ truthy pkg' = true
  end.
Proof.
  revert acc. induction names as [|name names IH]; intros acc.
  { cbn. split; [done|]. exists []. split; [by rewrite app_nil_r|constructor]. }
  cbn [collectPackages].
  destruct (lookupPackage grpcContext name) as [pkg|e] eqn:Hl.
  2: { split; [done|]. exists 0, name. split; [done|]. split; [done|].
       intros j name' Hj. lia. }
  destruct (truthy pkg) eqn:Ht; cbn [negb].
  2: { split; [done|]. exists 0, pkg. split; [done|]. split; [done|].
       split; [done|]. intros j name' Hj. lia. }
  specialize (IH (acc ++ [pkg])).
  destruct (collectPackages grpcContext names (acc ++ [pkg])) as [[pkgs|n|e] logged].
  - destruct IH as (-> & new & -> & Hf). split; [done|].
    exists (pkg :: new). split; [by rewrite <- app_assoc|]. by constructor.
  - destruct IH as (-> & i & pkg' & Hi & Hl' & Ht' & Hfirst). split; [done|].
    exists (S i), pkg'. split; [done|]. split; [done|]. split; [done|].
    intros [|j] name' Hj Hn.
    + injection Hn as <-. by exists pkg.
    + apply (Hfirst j); [lia|done].
  - destruct IH as (-> & i & n & Hi & Hl' & Hfirst). split; [done|].
    exists (S i), n. split; [done|]. split; [done|].
    intros [|j] name' Hj Hn.
    + injection Hn as <-. by exists pkg.
    + apply (Hfirst j); [lia|done].
Qed.

(** X16: [createClients] resolves the package names in order.  It returns
    the packages, one for each name and in the order of the names, without
    logging, exactly when every name resolves to a truthy value.  Otherwise it
    stops at the first name that does not: when that name resolves to a falsy
    value it logs one error and throws [InvalidGrpcPackageException] for that
    name; when the lookup itself throws, that error comes out and nothing is
    logged.  Names after it are not looked at. *)
Theorem createClients_resolves_in_order (grpcContext : jsval)
    (packageOption : PackageOption) :
  let names := match packageOption with
               | ManyPackages packageNames => packageNames
               | OnePackage packageName => [packageName]
               end in
  match createClients grpcContext packageOption with
  | (Packages grpcPackages, logged) =>
      logged = []
      /\ Forall2 (fun name pkg => lookupPackage grpcContext name = Ok pkg
                                  /\ truthy pkg = true) names grpcPackages
  | (InvalidGrpcPackageException name, logged) =>
      logged = [name]
      /\ exists i pkg, names !! i = Some name
           /\ lookupPackage grpcContext name = Ok pkg /\ truthy pkg = false
           /\ forall j name', j < i -> names !! j = Some name' ->
                exists pkg', lookupPackage grpcContext name' = Ok pkg'
                             /\ truthy pkg' = true
  | (LookupThrew e, logged) =>
      logged = []
      /\ exists i name, names !! i = Some name
           /\ lookupPackage grpcContext name = Throw e
           /\ forall j name', j < i -> names !! j = Some name' ->
                exists pkg', lookupPackage grpcContext name' = Ok pkg'
                             /\ truthy pkg' = true
  end.
Proof.
  intros names. unfold createClients. fold names.
  pose proof (collectPackages_spec grpcContext names []) as H.
  destruct (collectPackages grpcContext names []) as [[pkgs|n|e] logged];
    [|done|done].
  destruct H as (-> & new & -> & Hf). by split.
Qed.

(** ** Leaving a subscription *)

(** X17: whichever way a subscription is left (the consumer unsubscribes,
    the call ends, an error of the call or of the request stream is
    delivered, the unary callback completes), the step that closes the
    subscriber issues [cancel()] exactly once when the call is not marked
    finished, and does not issue it when it is. *)
Theorem exit_cancels_unfinished_call (ser : ServiceError -> jsval)
    (st : Inv) (ev : Event) :
  closed st = false -> closed (step ser ev st).1 = true ->
  count isCancel (step ser ev st).2 = (if finished st then 0 else 1).
Proof.
  destruct_inv st; cbn [closed]; intros ?; try discriminate.
  all: destruct_event ev; handler_cases.
Qed.

Lemma exit_cancels_unfinished_call_witness :
  let st := (subscribeFor true "Chat" true [requestSubject]).1 in
  closed st = false
  /\ closed (step messageOnly (UpstreamError errInternal) st).1 = true
  /\ count isCancel (step messageOnly (UpstreamError errInternal) st).2 = 1.
Proof.
  intros st.
  assert (Hc : closed st = false) by reflexivity.
  assert (Hc' : closed (step messageOnly (UpstreamError errInternal) st).1 = true)
    by reflexivity.
  refine (conj Hc (conj Hc' _)).
  exact (exit_cancels_unfinished_call messageOnly st (UpstreamError errInternal)
           Hc Hc').
Defined.

(** ** The order of the teardown, and request streams that fail at once *)

(** X18: unsubscribing from a streaming call that is open and not finished
    does, in this order: the release of the upstream subscription when there
    is one, the assignment [isClientCanceled = true], [call.cancel()].  The
    flag is therefore set when the transport answers the [cancel()]: an
    'error' with the details of a cancellation then destroys the call handle
    and calls nothing on the observer. *)
Theorem stream_teardown_order (ser : ServiceError -> jsval) (st : Inv)
    (error : ServiceError) :
  isStream st = true -> closed st = false -> finished st = false ->
  (step ser Unsubscribe st).2
  = (if hasUpstream st then [UpstreamUnsubscribe] else [])
    ++ [IsClientCanceled true; Cancel]
  /\ cancellationState (step ser Unsubscribe st).1 = Some true
  /\ closed (step ser Unsubscribe st).1 = true
  /\ (listening st = true -> detailsCancelled error = true ->
      step ser (CallError error) (step ser Unsubscribe st).1
      = ((step ser Unsubscribe st).1, [Destroy])).
Proof.
  unfold isStream.
  destruct_inv st; cbn; intros ? ? ?; try discriminate.
  all: repeat match goal with
              | |- _ /\ _ => split
              | |- _ -> _ => intros ?
              end; try discriminate.
  all: unfold detailsCancelled in *; handler_cases.
Qed.

Lemma stream_teardown_order_witness :
  let st := (streamSubscribe "Chat" true [requestSubject]).1 in
  isStream st = true /\ closed st = false /\ finished st = false
  /\ (step messageOnly Unsubscribe st).2
     = [UpstreamUnsubscribe; IsClientCanceled true; Cancel].
Proof.
  intros st.
  assert (Hs : isStream st = true) by reflexivity.
  assert (Hc : closed st = false) by reflexivity.
  assert (Hf : finished st = false) by reflexivity.
  refine (conj Hs (conj Hc (conj Hf _))).
  exact (proj1 (stream_teardown_order messageOnly st errCancelled Hs Hc Hf)).
Defined.

(** X19: in the streaming adapter the request stream is subscribed to before
    the listeners are registered.  A request stream that fails while it is
    being subscribed to (as [throwError] does) has its error emitted on the
    call before the adapter listens: the subscribe function passes nothing to
    the observer and the response stream stays open, waiting for the call.
    The same error after the subscribe function has returned runs the
    listener of 'error' and ends the response stream with the normalized
    error. *)
Theorem request_stream_fails_at_once (ser : ServiceError -> jsval)
    (methodName : string) (args : list jsval) (err : ServiceError) :
  isUpstreamSubject (arg 0 args) = true ->
  let early := streamSubscribeEmitting ser methodName true args [Fails err] in
  let quiet := streamSubscribe methodName true args in
  early.2 = [Open methodName [ArgValue (arg 1 args)]; UpstreamSubscribe;
             EmitError err; On "data"; On "error"; On "end"]
  /\ observerCalls early.2 = []
  /\ closed early.1 = false /\ listening early.1 = true
  /\ upstreamLive early.1 = false
  /\ emitted (step ser (UpstreamError err) quiet.1).2 = [ObsError (ser err)]
  /\ closed (step ser (UpstreamError err) quiet.1).1 = true.
Proof.
  intros Hs early quiet. subst early quiet.
  unfold streamSubscribeEmitting, streamSubscribe. rewrite Hs.
  cbn [andb fmap list_fmap asEvent run]. handler_cases.
Qed.

Lemma request_stream_fails_at_once_witness :
  isUpstreamSubject (arg 0 [requestSubject]) = true
  /\ observerCalls
       (streamSubscribeEmitting messageOnly "Chat" true [requestSubject]
          [Fails errInternal]).2 = []
  /\ emitted (step messageOnly (UpstreamError errInternal)
                (streamSubscribe "Chat" true [requestSubject]).1).2
     = [ObsError (messageOnly errInternal)].
Proof.
  assert (Hs : isUpstreamSubject (arg 0 [requestSubject]) = true)
    by reflexivity.
  refine (conj Hs _).
  pose proof (request_stream_fails_at_once messageOnly "Chat" [requestSubject]
                errInternal Hs) as H.
  exact (conj (proj1 (proj2 H))
              (proj1 (proj2 (proj2 (proj2 (proj2 (proj2 H))))))).
Defined.
